(** * BombSquad .bob / .cob codec (utils/blender/bob_plugin.py)

    A shallow embedding of the Blender import/export plugin: the struct
    packing it relies on, the two readers [load] and [loadcob], the vertex
    welding class [Verts], and the two writers [save] and [savecob].

    Conventions of the embedding.
    - A mathutils vector is an object of the host: the subtraction of two
      vectors and the comparison of a length with a bound are operations of
      the host ([Vector], [Host]), of which nothing is assumed.  The numbers
      the exporters read out of a vector ([Components]) are rationals ([Q]);
      where the plugin computes with them in Python floats and the rounding
      can change the result, it is written out ([binary64]).
    - The examples run on two hosts: one with rational components and exact
      arithmetic, and one whose components can be infinite or NaN.
    - [struct] is used by the plugin without a byte-order prefix, i.e. in
      native mode; the embedding fixes the little-endian layout of the
      platforms the plugin runs on.  None of the formats used needs padding.
    - A failed [assert] and a [struct.error] are results of type [error];
      which assertion failed is kept in the constructor.
    - [print] calls are diagnostics and are left out. *)

From Stdlib Require Import ZArith QArith Qround Qpower Lqa Strings.Byte List Lia Bool.
From stdpp Require Import base option list gmap.
Import ListNotations.

Local Open Scope Z_scope.

(** ** Bytes *)

Definition byte_to_Z (b : byte) : Z := Z.of_N (Byte.to_N b).

Definition byte_of_Z (z : Z) : byte :=
  match Byte.of_N (Z.to_N (z mod 256)) with
  | Some b => b
  | None => Byte.x00
  end.

(** little-endian value of a byte string, and its inverse on [n] bytes *)
Fixpoint le_decode (bs : list byte) : Z :=
  match bs with
  | [] => 0
  | b :: bs' => byte_to_Z b + 256 * le_decode bs'
  end.

Fixpoint le_encode (n : nat) (z : Z) : list byte :=
  match n with
  | O => []
  | S n' => byte_of_Z z :: le_encode n' (z / 256)
  end.

(** ** The [struct] module, as far as the plugin uses it *)

Inductive fmtchar :=
| fI  (* unsigned int, 4 bytes *)
| fH  (* unsigned short, 2 bytes *)
| fh  (* signed short, 2 bytes *)
| fb  (* signed char, 1 byte *)
| ff  (* float, 4 bytes *)
| fx. (* pad byte, no value *)

Definition fmt_size (c : fmtchar) : nat :=
  match c with
  | fI => 4 | fH => 2 | fh => 2 | fb => 1 | ff => 4 | fx => 1
  end%nat.

Definition calcsize (s : list fmtchar) : nat :=
  fold_right (fun c n => (fmt_size c + n)%nat) 0%nat s.

(** two's complement reading of an unsigned [bits]-bit value *)
Definition to_signed (bits : Z) (u : Z) : Z :=
  if u <? 2 ^ (bits - 1) then u else u - 2 ^ bits.

(** The value one format character reads from exactly [fmt_size c] bytes.
    A float is kept as its IEEE-754 binary32 bit pattern. *)
Definition unpack_one (c : fmtchar) (bs : list byte) : option Z :=
  match c with
  | fI => Some (le_decode bs)
  | fH => Some (le_decode bs)
  | fh => Some (to_signed 16 (le_decode bs))
  | fb => Some (to_signed 8 (le_decode bs))
  | ff => Some (le_decode bs)
  | fx => None
  end.

(** [struct.unpack(s, bs)]: [None] stands for [struct.error], raised when
    the buffer does not have exactly [calcsize s] bytes. *)
Fixpoint unpack (s : list fmtchar) (bs : list byte) : option (list Z) :=
  match s with
  | [] => match bs with [] => Some [] | _ :: _ => None end
  | c :: s' =>
      let n := fmt_size c in
      if (length bs <? n)%nat then None
      else
        match unpack s' (drop n bs) with
        | None => None
        | Some vs =>
            match unpack_one c (take n bs) with
            | Some v => Some (v :: vs)
            | None => Some vs
            end
        end
  end.

(** A value handed to [struct.pack]. *)
Inductive pyval :=
| PInt (z : Z)
| PFloat (q : Q).

Definition in_range (lo hi z : Z) : bool := (lo <=? z) && (z <=? hi).

Section Pack.

(** [struct.pack('f', x)]: the four bytes of the binary32 value of [x].
    The conversion belongs to the Python runtime, not to the plugin. *)
Variable pack_f : Q -> list byte.

(** the bytes of one format character; [None] is [struct.error] *)
Definition pack_one (c : fmtchar) (v : pyval) : option (list byte) :=
  match c, v with
  | fI, PInt z => if in_range 0 4294967295 z then Some (le_encode 4 z) else None
  | fH, PInt z => if in_range 0 65535 z then Some (le_encode 2 z) else None
  | fh, PInt z => if in_range (-32768) 32767 z then Some (le_encode 2 (z mod 65536)) else None
  | fb, PInt z => if in_range (-128) 127 z then Some (le_encode 1 (z mod 256)) else None
  | ff, PFloat q => Some (pack_f q)
  | ff, PInt z => Some (pack_f (inject_Z z))
  | _, _ => None
  end.

(** [struct.pack(s, *args)] *)
Fixpoint pack (s : list fmtchar) (args : list pyval) : option (list byte) :=
  match s with
  | [] => match args with [] => Some [] | _ :: _ => None end
  | fx :: s' =>
      match pack s' args with
      | Some bs => Some (Byte.x00 :: bs)
      | None => None
      end
  | c :: s' =>
      match args with
      | [] => None
      | v :: args' =>
          match pack_one c v, pack s' args' with
          | Some b1, Some b2 => Some (b1 ++ b2)
          | _, _ => None
          end
      end
  end.

End Pack.

(** ** Errors and results *)

Inductive error :=
| BadMagic           (* assert readstruct("I") == BOB_FILE_ID / COB_FILE_ID *)
| UnsupportedFormat  (* assert meshFormat in [0, 1] *)
| MalformedMesh      (* assert len(face) == 3 *)
| StructError.       (* struct.error from struct.unpack / struct.pack *)

Inductive result (A : Type) :=
| Ok (a : A)
| Err (e : error).
Arguments Ok {A} a.
Arguments Err {A} e.

Definition BOB_FILE_ID : Z := 45623.
Definition COB_FILE_ID : Z := 13466.

(** ** Reading: a file opened with 'rb' is the list of bytes not yet read *)

Module Reader.

Definition t (A : Type) : Type := list byte -> result (A * list byte).

Definition ret {A} (a : A) : t A := fun file => Ok (a, file).

Definition bind {A B} (m : t A) (k : A -> t B) : t B :=
  fun file =>
    match m file with
    | Ok (a, file') => k a file'
    | Err e => Err e
    end.

Definition raise {A} (e : error) : t A := fun _ => Err e.

Definition assert (b : bool) (e : error) : t unit :=
  if b then ret tt else raise e.

(** [for i in range(n): xs.append(body)] *)
Fixpoint repeat {A} (n : nat) (body : t A) : t (list A) :=
  match n with
  | O => ret []
  | S n' => bind body (fun x => bind (repeat n' body) (fun xs => ret (x :: xs)))
  end.

End Reader.

Declare Scope reader_scope.
Notation "'let*' x ':=' m 'in' k" := (Reader.bind m (fun x => k))
  (at level 10, x name, m at level 100, k at level 200, only parsing) : reader_scope.
Notation "m ';;' k" := (Reader.bind m (fun _ => k))
  (at level 100, k at level 200, right associativity, only parsing) : reader_scope.
Delimit Scope reader_scope with reader.

(** [readstruct(s)]: [file.read] returns at most the bytes that are left,
    and [struct.unpack] raises on a short buffer.  The plugin's
    [tup[0] if len(tup) == 1 else tup] is the caller taking the head. *)
Definition readstruct (s : list fmtchar) : Reader.t (list Z) :=
  fun file =>
    let n := calcsize s in
    match unpack s (take n file) with
    | Some tup => Ok (tup, drop n file)
    | None => Err StructError
    end.

Definition readstruct1 (c : fmtchar) : Reader.t Z :=
  Reader.bind (readstruct [c]) (fun tup => Reader.ret (nth 0 tup 0)).

(** what [mesh.from_pydata(verts, edges, faces)] receives *)
Record PyData := {
  pd_verts : list (Z * Z * Z);
  pd_edges : list (Z * Z);
  pd_faces : list (Z * Z * Z)
}.

(** [faces.append((indices[i*3], indices[i*3+1], indices[i*3+2]))]
    for [i in range(faceCount)] *)
Definition group_faces (faceCount : nat) (indices : list Z) : list (Z * Z * Z) :=
  map (fun i => (nth (i * 3) indices 0, nth (i * 3 + 1) indices 0, nth (i * 3 + 2) indices 0))
      (seq 0 faceCount).

(** *** [load] *)

Record BobMesh := {
  bob_pydata : PyData;
  bob_uv_list : list (Q * Q);
  bob_normal_list : list (Q * Q * Q)
}.

Definition read_vertex : Reader.t ((Z * Z * Z) * (Q * Q) * (Q * Q * Q)) :=
  (let* vertexObj := readstruct [ff; ff; ff; fH; fH; fh; fh; fh; fx; fx] in
   let o i := nth i vertexObj 0 in
   let position := (o 0, o 1, o 2)%nat in
   let uv := (inject_Z (o 3%nat) / 65535, inject_Z (o 4%nat) / 65535)%Q in
   let normal := (inject_Z (o 5%nat) / 32767, inject_Z (o 6%nat) / 32767,
                  inject_Z (o 7%nat) / 32767)%Q in
   Reader.ret (position, uv, normal))%reader.

(** the body of [for i in range(faceCount * 3)]; [meshFormat] is 0 or 1
    once the assertion has passed *)
Definition read_index (meshFormat : Z) : Reader.t Z :=
  if meshFormat =? 0 then readstruct1 fb      (* MESH_FORMAT_UV16_N8_INDEX8 *)
  else readstruct1 fH.                        (* MESH_FORMAT_UV16_N8_INDEX16 *)

Definition load : Reader.t BobMesh :=
  (let* magic := readstruct1 fI in
   Reader.assert (magic =? BOB_FILE_ID) BadMagic ;;
   let* meshFormat := readstruct1 fI in
   Reader.assert ((meshFormat =? 0) || (meshFormat =? 1)) UnsupportedFormat ;;
   let* vertexCount := readstruct1 fI in
   let* faceCount := readstruct1 fI in
   let* vs := Reader.repeat (Z.to_nat vertexCount) read_vertex in
   let* indices := Reader.repeat (Z.to_nat (faceCount * 3)) (read_index meshFormat) in
   let faces := group_faces (Z.to_nat faceCount) indices in
   Reader.ret {| bob_pydata := {| pd_verts := map (fun v => fst (fst v)) vs;
                                  pd_edges := [];
                                  pd_faces := faces |};
                 bob_uv_list := map (fun v => snd (fst v)) vs;
                 bob_normal_list := map snd vs |})%reader.

(** the UV a loop receives on import: [(uv[0], 1 - uv[1])] *)
Definition import_uv (uv : Q * Q) : Q * Q := (fst uv, 1 - snd uv)%Q.

(** *** [loadcob] *)

Definition read_position : Reader.t (Z * Z * Z) :=
  (let* vertexObj := readstruct [ff; ff; ff] in
   let o i := nth i vertexObj 0 in
   Reader.ret (o 0, o 1, o 2)%nat)%reader.

Definition loadcob : Reader.t PyData :=
  (let* magic := readstruct1 fI in
   Reader.assert (magic =? COB_FILE_ID) BadMagic ;;
   let* vertexCount := readstruct1 fI in
   let* faceCount := readstruct1 fI in
   let* verts := Reader.repeat (Z.to_nat vertexCount) read_position in
   let* indices := Reader.repeat (Z.to_nat (faceCount * 3)) (readstruct1 fI) in
   let faces := group_faces (Z.to_nat faceCount) indices in
   Reader.ret {| pd_verts := verts; pd_edges := []; pd_faces := faces |})%reader.


(** ** Numbers and vectors on the export side *)

Local Open Scope Q_scope.

Definition Qltb (a b : Q) : bool := (Qnum a * QDen b <? Qnum b * QDen a)%Z.

(** Python's [min(a, b)] and [max(a, b)] *)
Definition py_min (a b : Q) : Q := if Qltb b a then b else a.
Definition py_max (a b : Q) : Q := if Qltb a b then b else a.

(** [int(x)]: truncation towards zero *)
Definition py_int (x : Q) : Z := Z.quot (Qnum x) (QDen x).

Definition clamp (val minimum maximum : Q) : Q :=
  py_max (py_min val maximum) minimum.

(** *** Rounding to a Python float *)

(** the integer nearest to [q], the even one of two that are equally near *)
Definition round_half_even (q : Q) : Z :=
  let fl := Qfloor q in
  let r := q - inject_Z fl in
  if Qltb r (1 # 2) then fl
  else if Qltb (1 # 2) r then (fl + 1)%Z
  else if Z.even fl then fl else (fl + 1)%Z.

(** [floor (log2 q)] for a positive [q] *)
Definition exponent (q : Q) : Z :=
  let e0 := (Z.log2 (Qnum q) - Z.log2 (QDen q))%Z in
  if Qltb q (2 ^ e0) then (e0 - 1)%Z else e0.

(** The binary64 value nearest to a non-negative [q] below 2^1024 (round to
    nearest, ties to even, subnormals included): what an operation on Python
    floats returns when its exact result is [q]. *)
Definition binary64 (q : Q) : Q :=
  if (Qnum q <=? 0)%Z then 0
  else
    let e := Z.max (exponent q - 52) (-1074) in
    inject_Z (round_half_even (q / 2 ^ e)) * 2 ^ e.

(** ** The vectors of the host *)

(** A mathutils Vector is an object of the host.  The plugin subtracts two
    of them and compares the length of the difference with a constant; both
    are carried out by the host, in binary32 and binary64 arithmetic, on
    components that may be infinite or NaN.  [vsub v1 v2] is [v1 - v2] and
    [length_lt v bound] is [v.length < bound]; nothing is assumed of them. *)
Class Vector (V : Type) := {
  vsub : V -> V -> V;
  length_lt : V -> Q -> bool
}.

(** The two kinds of vector the plugin meets: positions and normals have
    three components, UVs have two. *)
Class Host := {
  vec3 : Type;
  vec2 : Type;
  host_vector3 :: Vector vec3;
  host_vector2 :: Vector vec2
}.

(** The components of a vector as Python floats, [x, y, z = v] and
    [uv[0], uv[1]], for a host whose vectors hold numbers: a component that
    is infinite or NaN has no value here, and what the exporters do with one
    (an [OverflowError] or a [ValueError] from [int]) is not part of the
    embedding. *)
Class Components `{Host} := {
  xyz : vec3 -> Q * Q * Q;
  xy : vec2 -> Q * Q
}.

(** [(v1 - v2).length < 0.01]; the literal is the Python float nearest to
    one hundredth *)
Definition vec_similar {V} `{Vector V} (v1 v2 : V) : bool :=
  length_lt (vsub v1 v2) (binary64 (1 # 100)).

(** a tuple of three floats as the arguments of ['fff'] *)
Definition components (v : Q * Q * Q) : list Q := [fst (fst v); snd (fst v); snd v].

(** ** The welding classes [Vert] and [Verts] *)

Section Welding.

Context {host : Host}.

(** A [Vert] keeps the vectors it is given, the host's objects, and not
    copies of their components.  The vectors of a corner belong to the
    BMesh of the export that welds it, which [to_bmesh] frees when the export
    ends; what the host then makes of them is the host's matter, and is all
    that [vsub], [length_lt], [xyz] and [xy] say of the vertices that the
    class keeps from earlier exports. *)
Record Vert := {
  coords : vec3;
  normal : vec3;
  uv : option vec2;
  index : nat
}.

(** A [uv] is either [None] or a two-component vector; a vector has no
    [__bool__] and a non-zero [__len__], so it is always true. *)
Definition simmilar (self other : Vert) : bool :=
  let is_similar := vec_similar (coords self) (coords other) in
  let is_similar := is_similar && vec_similar (normal self) (normal other) in
  match uv self, uv other with
  | Some u, Some u' => is_similar && vec_similar u u'
  | _, _ => is_similar
  end.

(** [_verts] and [_by_blender_index] are attributes of the class, not of
    an instance: [Verts()] creates an object without attributes of its own,
    and every [self._verts] reaches the one list of the class.  The record
    is therefore the state of the Python session, threaded through every
    export. *)
Record Verts := {
  _verts : list Vert;
  _by_blender_index : gmap nat (list Vert)
}.

(** the class as the module defines it *)
Definition Verts_initial : Verts :=
  {| _verts := []; _by_blender_index := ∅ |}.

(** [Verts.get].  [index] is assigned after the search in the source and
    is not read by [simmilar]; the record carries it from the start. *)
Definition get (self : Verts) (coords normal : vec3) (blender_index : nat)
    (uv : option vec2) : Verts * Vert :=
  let candidates := _by_blender_index self !!! blender_index in
  let instance := {| coords := coords; normal := normal; uv := uv;
                     index := length (_verts self) |} in
  match List.find (simmilar instance) candidates with
  | Some other => (self, other)
  | None =>
      ({| _verts := _verts self ++ [instance];
          _by_blender_index :=
            <[blender_index := candidates ++ [instance]]> (_by_blender_index self) |},
       instance)
  end.

(** ** The host mesh, as far as the exporters read it *)

Record BMVert := {
  co : vec3;
  bm_normal : vec3;
  bm_index : nat
}.

(** [face.verts[vi]] together with [face.loops[vi][uv_layer].uv] *)
Record BMLoop := {
  loop_vert : BMVert;
  loop_uv : vec2
}.

Record TessFace := {
  vertices : list nat;
  tf_normal : vec3
}.

Record Mesh := {
  mesh_vertices : list vec3;          (* vert.co for vert in mesh.vertices *)
  tessfaces : list TessFace;          (* mesh.tessfaces *)
  uv_layers : nat;                    (* len(bm.loops.layers.uv) *)
  bm_faces : list (list BMLoop)       (* bm.faces of to_bmesh(mesh) *)
}.

End Welding.

(** ** Writing: a file opened with 'wb' is the list of bytes written so far.
    An exception leaves what was written in the file. *)

Module Writer.

Definition t (A : Type) : Type := list byte -> list byte * result A.

Definition ret {A} (a : A) : t A := fun file => (file, Ok a).

Definition bind {A B} (m : t A) (k : A -> t B) : t B :=
  fun file =>
    match m file with
    | (file', Ok a) => k a file'
    | (file', Err e) => (file', Err e)
    end.

Definition raise {A} (e : error) : t A := fun file => (file, Err e).

Definition assert (b : bool) (e : error) : t unit :=
  if b then ret tt else raise e.

(** [for x in xs: body(x)] *)
Fixpoint for_each {A} (xs : list A) (body : A -> t unit) : t unit :=
  match xs with
  | [] => ret tt
  | x :: xs' => bind (body x) (fun _ => for_each xs' body)
  end.

End Writer.

Declare Scope writer_scope.
Notation "m ';;' k" := (Writer.bind m (fun _ => k))
  (at level 100, k at level 200, right associativity, only parsing) : writer_scope.
Delimit Scope writer_scope with writer.

(** The quantisation expressions of [save].  The components of a UV and of
    a normal are binary32 values: [clamp] returns one of them or a bound, and
    its product with 65535 or 32767 has at most 40 significant bits, so it is
    exact in binary64.  [1 - clamp(uv[1])] can need more than 53 bits; it is
    rounded, and so is its product with 65535. *)
Definition encode_uv (uv : Q * Q) : Z * Z :=
  (py_int (clamp (fst uv) 0 1 * 65535),
   py_int (binary64 (binary64 (1 - clamp (snd uv) 0 1) * 65535))).

Definition encode_normal (normal : Q * Q * Q) : list Z :=
  map (fun n => py_int (clamp n (-1) 1 * 32767)) (components normal).

Section WeldingLoop.

Context {host : Host}.

(** one pass of [for face in bm.faces: ... for vi, vert in enumerate(face.verts)] *)
Fixpoint face_loop (verts : Verts) (uv_layer : bool) (face : list BMLoop)
    : Verts * list Vert :=
  match face with
  | [] => (verts, [])
  | l :: face' =>
      let uv := if uv_layer then Some (loop_uv l) else None in
      let vert := loop_vert l in
      let '(verts, v) := get verts (co vert) (bm_normal vert) (bm_index vert) uv in
      let '(verts, faceverts) := face_loop verts uv_layer face' in
      (verts, v :: faceverts)
  end.

Fixpoint faces_loop (verts : Verts) (uv_layer : bool) (bmfaces : list (list BMLoop))
    : Verts * list (list Vert) :=
  match bmfaces with
  | [] => (verts, [])
  | face :: bmfaces' =>
      let '(verts, faceverts) := face_loop verts uv_layer face in
      let '(verts, faces) := faces_loop verts uv_layer bmfaces' in
      (verts, faceverts :: faces)
  end.

Definition needs_triangulation (mesh : Mesh) : bool :=
  existsb (fun face => negb (length (vertices face) =? 3)%nat) (tessfaces mesh).

End WeldingLoop.

Section Exporters.

Context {host : Host} {parts : Components}.

Variable pack_f : Q -> list byte.

(** [bmesh.ops.triangulate(bm, faces=bm.faces)] written back to the mesh,
    followed by [mesh.update(calc_edges=True, calc_tessface=True)]: an
    operator of the host. *)
Variable bm_triangulate : Mesh -> Mesh.

Definition writestruct (s : list fmtchar) (args : list pyval) : Writer.t unit :=
  fun file =>
    match pack pack_f s args with
    | Some bs => (file ++ bs, Ok tt)
    | None => (file, Err StructError)
    end.

Definition write_vert (vert : Vert) : Writer.t unit :=
  (writestruct [ff; ff; ff] (map PFloat (components (xyz (coords vert)))) ;;
   match uv vert with
   | Some uv =>
       writestruct [fH; fH] [PInt (fst (encode_uv (xy uv))); PInt (snd (encode_uv (xy uv)))]
   | None => writestruct [fH; fH] [PInt 0%Z; PInt 0%Z]
   end ;;
   writestruct [fh; fh; fh] (map PInt (encode_normal (xyz (normal vert)))) ;;
   writestruct [fx; fx] [])%writer.

Definition write_face (face : list Vert) : Writer.t unit :=
  (Writer.assert (length face =? 3)%nat MalformedMesh ;;
   Writer.for_each face (fun vert => writestruct [fH] [PInt (Z.of_nat (index vert))]))%writer.

Definition triangulation_gate (mesh : Mesh) (triangulate : bool) : Mesh :=
  if triangulate || needs_triangulation mesh then bm_triangulate mesh else mesh.

(** [save]: the class state before the call, the mesh of the active
    object and the operator's flag give the class state after the call, the
    bytes in the file and the outcome.  The welding loop stands between the
    second and the third [writestruct] in the source; it writes nothing and
    raises nothing, so it is taken out of the writer. *)
Definition save (cls : Verts) (mesh : Mesh) (triangulate : bool)
    : Verts * (list byte * result unit) :=
  let mesh := triangulation_gate mesh triangulate in
  let uv_layer := (0 <? uv_layers mesh)%nat in
  let '(verts, faces) := faces_loop cls uv_layer (bm_faces mesh) in
  (verts,
   (writestruct [fI] [PInt BOB_FILE_ID] ;;
    writestruct [fI] [PInt 1%Z] ;;
    writestruct [fI] [PInt (Z.of_nat (length (_verts verts)))] ;;
    writestruct [fI] [PInt (Z.of_nat (length faces))] ;;
    Writer.for_each (_verts verts) write_vert ;;
    Writer.for_each faces write_face)%writer []).

Definition write_tessface (face : TessFace) : Writer.t unit :=
  (Writer.assert (length (vertices face) =? 3)%nat MalformedMesh ;;
   Writer.for_each (vertices face)
     (fun vertid => writestruct [fI] [PInt (Z.of_nat vertid)]))%writer.

Definition savecob (mesh : Mesh) (triangulate : bool) : list byte * result unit :=
  let mesh := triangulation_gate mesh triangulate in
  (writestruct [fI] [PInt COB_FILE_ID] ;;
   writestruct [fI] [PInt (Z.of_nat (length (mesh_vertices mesh)))] ;;
   writestruct [fI] [PInt (Z.of_nat (length (tessfaces mesh)))] ;;
   Writer.for_each (mesh_vertices mesh)
     (fun vert_co => writestruct [ff; ff; ff] (map PFloat (components (xyz vert_co)))) ;;
   Writer.for_each (tessfaces mesh) write_tessface ;;
   Writer.for_each (tessfaces mesh)
     (fun face =>
        writestruct [ff; ff; ff] (map PFloat (components (xyz (tf_normal face))))))%writer [].

End Exporters.

(** ** Instances of the foreign operations, for running the model *)

(** Vectors with rational components and exact arithmetic: the length is
    compared through its square.  This idealises the host's binary32
    arithmetic; the examples below lie far from the threshold of 0.01. *)
#[export] Instance Vector2 : Vector (Q * Q) := {|
  vsub a b := (fst a - fst b, snd a - snd b);
  length_lt a bound := Qltb (fst a * fst a + snd a * snd a) (bound * bound)
|}.

#[export] Instance Vector3 : Vector (Q * Q * Q) := {|
  vsub a b := (fst (fst a) - fst (fst b), snd (fst a) - snd (fst b), snd a - snd b);
  length_lt a bound :=
    Qltb (fst (fst a) * fst (fst a) + snd (fst a) * snd (fst a) + snd a * snd a)
         (bound * bound)
|}.

#[export] Instance exact_host : Host := {| vec3 := Q * Q * Q; vec2 := Q * Q |}.

#[export] Instance exact_components : Components := {| xyz v := v; xy v := v |}.

(** The binary32 bit pattern nearest to a rational (round to nearest, ties
    to even; subnormals included).  A value beyond the binary32 range makes
    [struct.pack] raise [OverflowError]; mesh coordinates are binary32
    values already, so that case is given the pattern of infinity. *)
Definition binary32_bits (q : Q) : Z :=
  (let n := Z.abs (Qnum q) in
   let d := QDen q in
   if n =? 0 then 0
   else
     let s := if Qnum q <? 0 then 2 ^ 31 else 0 in
     let e0 := Z.log2 n - Z.log2 d in
     let ge e := if 0 <=? e then d * 2 ^ e <=? n else d <=? n * 2 ^ (- e) in
     let e := Z.max (if ge e0 then e0 else e0 - 1) (-126) in
     let sh := 23 - e in
     let num := if 0 <=? sh then n * 2 ^ sh else n in
     let den := if 0 <=? sh then d else d * 2 ^ (- sh) in
     let fl := num / den in
     let r := num mod den in
     let m := if 2 * r <? den then fl
              else if den <? 2 * r then fl + 1
              else if Z.even fl then fl else fl + 1 in
     let e := if 2 ^ 24 <=? m then e + 1 else e in
     let m := if 2 ^ 24 <=? m then m / 2 else m in
     if m <? 2 ^ 23 then s + m
     else if 128 <=? e then s + 255 * 2 ^ 23
     else s + (e + 127) * 2 ^ 23 + (m - 2 ^ 23))%Z.

Definition pack_f32 (q : Q) : list byte := le_encode 4 (binary32_bits q).

(** A triangulation operator: every polygon, and every tessellation face,
    is split into the fan of triangles around its first corner. *)
Fixpoint fan_from {A} (a b : A) (rest : list A) : list (list A) :=
  match rest with
  | [] => []
  | c :: rest' => [a; b; c] :: fan_from a c rest'
  end.

Definition fan {A} (face : list A) : list (list A) :=
  match face with
  | a :: b :: rest => fan_from a b rest
  | _ => []
  end.

Definition fan_triangulate (mesh : Mesh) : Mesh :=
  {| mesh_vertices := mesh_vertices mesh;
     tessfaces :=
       flat_map (fun face => map (fun vs => {| vertices := vs; tf_normal := tf_normal face |})
                                 (fan (vertices face)))
                (tessfaces mesh);
     uv_layers := uv_layers mesh;
     bm_faces := flat_map fan (bm_faces mesh) |}.

(** * Vocabulary of the statements *)

Local Open Scope Z_scope.

(** A reader is framed when a successful run splits the file into the bytes
    it used and the bytes it left, and runs the same on the used bytes
    followed by anything else. *)
Definition framed {A} (m : Reader.t A) : Prop :=
  forall file a rest, m file = Ok (a, rest) ->
    exists used, file = used ++ rest /\
      forall rest', m (used ++ rest') = Ok (a, rest').

(** A reader advances by [n] when every successful run uses [n] bytes. *)
Definition advances {A} (m : Reader.t A) (n : nat) : Prop :=
  forall file a rest, m file = Ok (a, rest) -> length file = (n + length rest)%nat.

Definition loaded_faces (r : result (BobMesh * list byte)) : option (list (Z * Z * Z)) :=
  match r with
  | Ok (mesh, _) => Some (pd_faces (bob_pydata mesh))
  | Err _ => None
  end.

Local Open Scope nat_scope.

Section WeldingVocabulary.

Context {host : Host}.

(** the attributes of a face corner, as [save] passes them to [Verts.get] *)
Definition corner_uv (uv_layer : bool) (l : BMLoop) : option vec2 :=
  if uv_layer then Some (loop_uv l) else None.

(** the [Vert] that [Verts.get] makes of a face corner *)
Definition corner_vert (uv_layer : bool) (l : BMLoop) (i : nat) : Vert :=
  {| coords := co (loop_vert l); normal := bm_normal (loop_vert l);
     uv := corner_uv uv_layer l; index := i |}.

(** The host finds the corner similar to itself: the position, the normal
    and the UV are each at a distance below 0.01 from themselves.  A vector
    of finite components is; one with an infinite or NaN component is not,
    its difference with itself having a NaN length. *)
Definition self_similar (uv_layer : bool) (l : BMLoop) : Prop :=
  simmilar (corner_vert uv_layer l 0) (corner_vert uv_layer l 0) = true.

(** [cls'] holds everything [cls] holds, in the same order *)
Definition extends (cls cls' : Verts) : Prop :=
  _verts cls `prefix_of` _verts cls' /\
  forall k : nat, (_by_blender_index cls !!! k) `prefix_of` (_by_blender_index cls' !!! k).

(** What holds of the class in every session: a stored vertex has an index
    below the number of vertices, and no index occurs under two source
    indices. *)
Definition Verts_wf (cls : Verts) : Prop :=
  (forall (k : nat) (v : Vert),
     In v (_by_blender_index cls !!! k) -> index v < length (_verts cls)) /\
  (forall (k k' : nat) (v v' : Vert),
     In v (_by_blender_index cls !!! k) -> In v' (_by_blender_index cls !!! k') ->
     index v = index v' -> k = k').

Definition index_bytes (v : Vert) : list byte := le_encode 2 (Z.of_nat (index v)).

Definition tess_index_bytes (face : TessFace) : list byte :=
  flat_map (fun vertid => le_encode 4 (Z.of_nat vertid)) (vertices face).

Definition is_triangle {A} (face : list A) : Prop := length face = 3.

Definition bob_header (nverts nfaces : nat) : list byte :=
  le_encode 4 BOB_FILE_ID ++ le_encode 4 1 ++
  le_encode 4 (Z.of_nat nverts) ++ le_encode 4 (Z.of_nat nfaces).

Definition cob_header (nverts nfaces : nat) : list byte :=
  le_encode 4 COB_FILE_ID ++
  le_encode 4 (Z.of_nat nverts) ++ le_encode 4 (Z.of_nat nfaces).

Definition fits_u16 (v : Vert) : Prop := (Z.of_nat (index v) <= 65535)%Z.

Definition fits_u32 (n : nat) : Prop := (Z.of_nat n < 4294967296)%Z.

Definition tess_triangle (face : TessFace) : Prop := is_triangle (vertices face).

Definition tess_fits_u32 (face : TessFace) : Prop := Forall fits_u32 (vertices face).

End WeldingVocabulary.

Section ExportBytes.

Context {host : Host} {parts : Components}.

Variable pack_f : Q -> list byte.
Variable bm_triangulate : Mesh -> Mesh.

Definition vec3_bytes (v : vec3) : list byte := flat_map pack_f (components (xyz v)).

(** the 24 bytes of one vertex record *)
Definition vert_bytes (v : Vert) : list byte :=
  vec3_bytes (coords v) ++
  match uv v with
  | Some uv =>
      le_encode 2 (fst (encode_uv (xy uv))) ++ le_encode 2 (snd (encode_uv (xy uv)))
  | None => le_encode 2 0 ++ le_encode 2 0
  end ++
  flat_map (fun z => le_encode 2 (z mod 65536)) (encode_normal (xyz (normal v))) ++
  [Byte.x00; Byte.x00].

(** the body of the inner loop of [for face in faces] *)
Definition write_index (vert : Vert) : Writer.t unit :=
  writestruct pack_f [fH] [PInt (Z.of_nat (index vert))].

(** the welding pass of [save] *)
Definition welded (cls : Verts) (mesh : Mesh) (triangulate : bool)
    : Verts * list (list Vert) :=
  let mesh := triangulation_gate bm_triangulate mesh triangulate in
  faces_loop cls (0 <? uv_layers mesh) (bm_faces mesh).

End ExportBytes.

(** * Example data *)

(** ** Files *)

Local Open Scope Z_scope.

(** A variant-0 file with 129 vertices at the origin and the single face
    (0, 1, 128). *)
Definition bob_variant0_file : list byte :=
  map byte_of_Z ([55; 178; 0; 0;  0; 0; 0; 0;  129; 0; 0; 0;  1; 0; 0; 0]
                 ++ concat (List.repeat (List.repeat 0 24) 129)
                 ++ [0; 1; 128]).

(** the same mesh as a variant-1 file *)
Definition bob_variant1_file : list byte :=
  map byte_of_Z ([55; 178; 0; 0;  1; 0; 0; 0;  129; 0; 0; 0;  1; 0; 0; 0]
                 ++ concat (List.repeat (List.repeat 0 24) 129)
                 ++ [0; 0; 1; 0; 128; 0]).

(** a COB file of one triangle, and the twelve bytes of its face normal *)
Definition cob_triangle_body : list byte :=
  map byte_of_Z [154; 52; 0; 0;  3; 0; 0; 0;  1; 0; 0; 0;
                 0; 0; 0; 0;  0; 0; 0; 0;  0; 0; 0; 0;
                 0; 0; 128; 63;  0; 0; 0; 0;  0; 0; 0; 0;
                 0; 0; 0; 0;  0; 0; 128; 63;  0; 0; 0; 0;
                 0; 0; 0; 0;  1; 0; 0; 0;  2; 0; 0; 0].

Definition cob_triangle_normal : list byte :=
  map byte_of_Z [0; 0; 0; 0;  0; 0; 0; 0;  0; 0; 128; 63].

Definition cob_triangle_data : PyData :=
  {| pd_verts := [(0, 0, 0); (1065353216, 0, 0); (0, 1065353216, 0)];
     pd_edges := [];
     pd_faces := [(0, 1, 2)] |}.

(** ** Meshes *)

Local Open Scope nat_scope.

Definition bm_corner (x y z : Q) (i : nat) (u v : Q) : BMLoop :=
  {| loop_vert := {| co := (x, y, z); bm_normal := (0, 0, 1)%Q; bm_index := i |};
     loop_uv := (u, v) |}.

Definition up : Q * Q * Q := (0, 0, 1)%Q.

(** one triangle in the plane z = 0 *)
Definition triangle_a : Mesh :=
  {| mesh_vertices := [(0, 0, 0); (1, 0, 0); (0, 1, 0)]%Q;
     tessfaces := [{| vertices := [0; 1; 2]; tf_normal := up |}];
     uv_layers := 1;
     bm_faces := [[bm_corner 0 0 0 0 0 0; bm_corner 1 0 0 1 1 0; bm_corner 0 1 0 2 0 1]] |}.

(** another object: the same triangle moved by 5 along x *)
Definition triangle_b : Mesh :=
  {| mesh_vertices := [(5, 0, 0); (6, 0, 0); (5, 1, 0)]%Q;
     tessfaces := [{| vertices := [0; 1; 2]; tf_normal := up |}];
     uv_layers := 1;
     bm_faces := [[bm_corner 5 0 0 0 0 0; bm_corner 6 0 0 1 1 0; bm_corner 5 1 0 2 0 1]] |}.

(** the unit square as one quad *)
Definition quad : Mesh :=
  {| mesh_vertices := [(0, 0, 0); (1, 0, 0); (1, 1, 0); (0, 1, 0)]%Q;
     tessfaces := [{| vertices := [0; 1; 2; 3]; tf_normal := up |}];
     uv_layers := 1;
     bm_faces := [[bm_corner 0 0 0 0 0 0; bm_corner 1 0 0 1 1 0;
                   bm_corner 1 1 0 2 1 1; bm_corner 0 1 0 3 0 1]] |}.

(** the unit square as two triangles sharing the diagonal 0-2 *)
Definition square : Mesh :=
  {| mesh_vertices := [(0, 0, 0); (1, 0, 0); (1, 1, 0); (0, 1, 0)]%Q;
     tessfaces := [{| vertices := [0; 1; 2]; tf_normal := up |};
                   {| vertices := [0; 2; 3]; tf_normal := up |}];
     uv_layers := 1;
     bm_faces := [[bm_corner 0 0 0 0 0 0; bm_corner 1 0 0 1 1 0; bm_corner 1 1 0 2 1 1];
                  [bm_corner 0 0 0 0 0 0; bm_corner 1 1 0 2 1 1; bm_corner 0 1 0 3 0 1]] |}.


Definition bob (cls : Verts) (mesh : Mesh) (triangulate : bool) :=
  save pack_f32 fan_triangulate cls mesh triangulate.

Definition after_a : Verts := fst (bob Verts_initial triangle_a false).

Definition cob_with (tri : Mesh -> Mesh) (mesh : Mesh) (triangulate : bool) :=
  savecob pack_f32 tri mesh triangulate.

Definition weld (cls : Verts) (mesh : Mesh) (triangulate : bool) :=
  welded fan_triangulate cls mesh triangulate.

Definition file_of (r : Verts * (list byte * result unit)) : list byte := fst (snd r).

Definition outcome_of (r : Verts * (list byte * result unit)) : result unit := snd (snd r).

(** a vertex without UV *)
Definition uvless : Vert :=
  {| coords := (1, 2, 3)%Q; normal := up; uv := None; index := 0 |}.

(** two corners at the same place, with the same normal and UV, that belong
    to different mesh vertices *)
Definition doubled : list (list BMLoop) :=
  [[bm_corner 0 0 0 0 0 0; bm_corner 0 0 0 1 0 0; bm_corner 1 1 0 2 1 1]].

(** ** A host with infinities and NaN *)

(** a component of a vector: a number, an infinity or NaN *)
Inductive xfloat :=
| Finite (q : Q)
| Infinity (negative : bool)
| NaN.

(** IEEE subtraction, without rounding: the difference of two infinities
    of the same sign is NaN *)
Definition xsub (a b : xfloat) : xfloat :=
  match a, b with
  | NaN, _ | _, NaN => NaN
  | Finite p, Finite q => Finite (p - q)
  | Finite _, Infinity s => Infinity (negb s)
  | Infinity s, Finite _ => Infinity s
  | Infinity s, Infinity t => if Bool.eqb s t then NaN else Infinity s
  end.

(** the sum of the squares of the components, when all of them are numbers *)
Fixpoint sum_squares (v : list xfloat) : option Q :=
  match v with
  | [] => Some 0%Q
  | Finite q :: v' =>
      match sum_squares v' with
      | Some s => Some (q * q + s)%Q
      | None => None
      end
  | _ :: _ => None
  end.

(** [v.length < bound]: a vector with an infinite or NaN component has an
    infinite or NaN length, which is below no bound *)
Definition xvector : Vector (list xfloat) := {|
  vsub a b := zip_with xsub a b;
  length_lt a bound :=
    match sum_squares a with
    | Some s => Qltb s (bound * bound)
    | None => false
    end
|}.

Definition xfloat_host : Host :=
  {| vec3 := list xfloat; vec2 := list xfloat;
     host_vector3 := xvector; host_vector2 := xvector |}.

(** a corner of mesh vertex 0 whose position has an infinite x *)
Definition far_corner : @BMLoop xfloat_host :=
  @Build_BMLoop xfloat_host
    (@Build_BMVert xfloat_host [Infinity false; Finite 0; Finite 0]
                   [Finite 0; Finite 0; Finite 1] 0)
    [Finite 0; Finite 0].

(** * Further vocabulary *)

(** ** Sizes and ranges of what the loaders read *)

(** bytes per index of a BOB file *)
Definition index_width (meshFormat : Z) : nat := if (meshFormat =? 0)%Z then 1 else 2.

(** the four header fields of a file, read where [load] reads them *)
Definition header_field (k : nat) (file : list byte) : Z := le_decode (take 4 (drop (4 * k) file)).

Definition bob_size (file : list byte) : nat :=
  16 + 24 * Z.to_nat (header_field 2 file)
  + index_width (header_field 1 file) * Z.to_nat (header_field 3 file * 3).

Definition cob_size (file : list byte) : nat :=
  12 + 12 * Z.to_nat (header_field 1 file) + 4 * Z.to_nat (header_field 2 file * 3).

(** a loop body that reads records of [k] bytes *)
Definition fixed_size {A} (body : Reader.t A) (k : nat) : Prop :=
  (forall file, k <= length file -> exists a, body file = Ok (a, drop k file)) /\
  (forall file, length file < k -> body file = Err StructError).

(** the values a format character can yield; a float is a bit pattern *)
Definition fmt_lo (c : fmtchar) : Z :=
  match c with fh => -32768 | fb => -128 | _ => 0 end%Z.

Definition fmt_hi (c : fmtchar) : Z :=
  match c with
  | fI | ff => 4294967295 | fH => 65535 | fh => 32767 | fb => 127 | fx => 0
  end%Z.

Definition is_pad (c : fmtchar) : bool := match c with fx => true | _ => false end.

(** the format characters that yield a value *)
Definition fmt_values (s : list fmtchar) : list fmtchar :=
  List.filter (fun c => negb (is_pad c)) s.

Definition within (lo hi : Z) (z : Z) : Prop := (lo <= z <= hi)%Z.

Definition face_within (lo hi : Z) (face : Z * Z * Z) : Prop :=
  within lo hi (fst (fst face)) /\ within lo hi (snd (fst face)) /\ within lo hi (snd face).

(** a file of variant 1 with one vertex record and no face: UV (65535, 0),
    normal words 0x8000, 0x7fff, 0 *)
Definition bob_one_vertex_file : list byte :=
  map byte_of_Z ([55; 178; 0; 0;  1; 0; 0; 0;  1; 0; 0; 0;  0; 0; 0; 0;
                  0; 0; 0; 0;  0; 0; 0; 0;  0; 0; 0; 0;
                  255; 255; 0; 0;  0; 128; 255; 127; 0; 0;  0; 0])%Z.

(** a decoded UV lies in the unit square *)
Definition uv_in_unit (uv : Q * Q) : Prop :=
  (0 <= fst uv <= 1)%Q /\ (0 <= snd uv <= 1)%Q.

(** a decoded normal component: a signed 16-bit word over 32767 *)
Definition normal_decoded (n : Q * Q * Q) : Prop :=
  Forall (fun c => (- (32768 # 32767) <= c <= 1)%Q) (components n).

(** the range of the indices of a BOB file of the given format *)
Definition index_lo (meshFormat : Z) : Z := if (meshFormat =? 0)%Z then (-128)%Z else 0%Z.
Definition index_hi (meshFormat : Z) : Z := if (meshFormat =? 0)%Z then 127%Z else 65535%Z.

(** what [load] computes from the two UV words and from a normal word *)
Definition decode_uv (w : Z * Z) : Q * Q :=
  (inject_Z (fst w) / 65535, inject_Z (snd w) / 65535)%Q.

Definition decode_normal (z : Z) : Q := (inject_Z z / 32767)%Q.

Section IndexedClass.

Context {host : Host}.

(** every vertex of the class list carries its own position as index, and
    every vertex stored under a source index is in the class list *)
Definition Verts_indexed (cls : Verts) : Prop :=
  (forall (i : nat) (v : Vert), _verts cls !! i = Some v -> index v = i) /\
  (forall (k : nat) (v : Vert), In v (_by_blender_index cls !!! k) -> In v (_verts cls)).

(** the face of three indices that a welded triangle becomes in the file *)
Definition face_indices (face : list Vert) : Z * Z * Z :=
  let idx i := nth i (map (fun v => Z.of_nat (index v)) face) 0%Z in
  (idx 0, idx 1, idx 2).

Definition tess_indices (face : TessFace) : Z * Z * Z :=
  let idx i := nth i (map Z.of_nat (vertices face)) 0%Z in
  (idx 0, idx 1, idx 2).

End IndexedClass.

(** a writer that only adds bytes at the end of the file, whatever its
    outcome *)
Definition appends {A} (m : Writer.t A) : Prop :=
  forall file, exists out, fst (m file) = file ++ out.

Section StoredValues.

Context {host : Host} {parts : Components}.

Variable pack_f : Q -> list byte.

(** the value [struct.unpack] yields for a value that [struct.pack] has
    accepted under the format character [c] *)
Definition stored (c : fmtchar) (v : pyval) : Z :=
  match c, v with
  | ff, PFloat q => le_decode (pack_f q)
  | ff, PInt z => le_decode (pack_f (inject_Z z))
  | _, PInt z => z
  | _, PFloat _ => 0%Z
  end.

Fixpoint stored_values (s : list fmtchar) (args : list pyval) : list Z :=
  match s with
  | [] => []
  | fx :: s' => stored_values s' args
  | c :: s' =>
      match args with
      | [] => []
      | v :: args' => stored c v :: stored_values s' args'
      end
  end.

(** what [load] returns for a vertex record that [save] has written *)
(** what [loadcob] returns for a position that [savecob] has written *)
Definition stored_co (p : vec3) : Z * Z * Z :=
  (le_decode (pack_f (fst (fst (xyz p)))), le_decode (pack_f (snd (fst (xyz p)))),
   le_decode (pack_f (snd (xyz p)))).

Definition stored_position (v : Vert) : Z * Z * Z := stored_co (coords v).

Definition stored_uv (v : Vert) : Q * Q :=
  match uv v with
  | Some uv => decode_uv (encode_uv (xy uv))
  | None => decode_uv (0, 0)%Z
  end.

Definition stored_normal (v : Vert) : Q * Q * Q :=
  let word i := decode_normal (nth i (encode_normal (xyz (normal v))) 0%Z) in
  (word 0, word 1, word 2).

End StoredValues.

(** *** The texture that [load] looks for *)

(** whether the byte is one of [chars] *)
Definition in_chars (chars : list byte) (b : byte) : bool := existsb (Byte.eqb b) chars.

(** the leading bytes that occur in [chars] are removed *)
Fixpoint lstrip (chars s : list byte) : list byte :=
  match s with
  | [] => []
  | b :: s' => if in_chars chars b then lstrip chars s' else s
  end.

(** [bytes.rstrip(chars)]: the trailing bytes that occur in [chars] are
    removed *)
Definition rstrip (chars s : list byte) : list byte := rev (lstrip chars (rev s)).

(** b".bob" and b".dds" *)
Definition dot_bob : list byte := [Byte.x2e; Byte.x62; Byte.x6f; Byte.x62].
Definition dot_dds : list byte := [Byte.x2e; Byte.x64; Byte.x64; Byte.x73].

(** [os.path.basename(filepath).rstrip(b".bob") + b".dds"], as a function of
    the base name *)
Definition texname (basename : list byte) : list byte := rstrip dot_bob basename ++ dot_dds.

(** a writer whose only failure is [struct.error] *)
Definition struct_errors_only {A} (m : Writer.t A) : Prop :=
  forall file e, snd (m file) = Err e -> e = StructError.

(** ** The menus of the host *)

(** A draw function in a menu of the host: the five this module defines, and
    those of the host and of other add-ons. *)
Inductive draw_func :=
| import_bob_menu
| export_bob_menu
| import_cob_menu
| export_cob_menu
| import_leveldefs
| foreign (n : nat).

#[global] Instance draw_func_eq_dec : EqDecision draw_func.
Proof. solve_decision. Defined.

(** [bpy.types.INFO_MT_file_import] and [bpy.types.INFO_MT_file_export]: a
    menu is the list of its draw functions.  The registration of the operator
    classes by [bpy.utils.register_module] is left out. *)
Record Menus := {
  INFO_MT_file_import : list draw_func;
  INFO_MT_file_export : list draw_func
}.

(** [Menu.append]: the function is added at the end *)
Definition menu_append (f : draw_func) (menu : list draw_func) : list draw_func := menu ++ [f].

(** [Menu.remove]: the first occurrence is removed; a function that is not
    in the menu is ignored *)
Fixpoint menu_remove (f : draw_func) (menu : list draw_func) : list draw_func :=
  match menu with
  | [] => []
  | g :: menu' => if decide (g = f) then menu' else g :: menu_remove f menu'
  end.

Definition register (m : Menus) : Menus :=
  let imp := menu_append import_bob_menu (INFO_MT_file_import m) in
  let exp := menu_append export_bob_menu (INFO_MT_file_export m) in
  let imp := menu_append import_cob_menu imp in
  let exp := menu_append export_cob_menu exp in
  let imp := menu_append import_leveldefs imp in
  {| INFO_MT_file_import := imp; INFO_MT_file_export := exp |}.

Definition unregister (m : Menus) : Menus :=
  let imp := menu_remove import_bob_menu (INFO_MT_file_import m) in
  let exp := menu_remove export_bob_menu (INFO_MT_file_export m) in
  let imp := menu_remove import_cob_menu imp in
  let exp := menu_remove export_cob_menu exp in
  {| INFO_MT_file_import := imp; INFO_MT_file_export := exp |}.

(** how often a draw function occurs in a menu *)
Definition occurrences (f : draw_func) (menu : list draw_func) : nat :=
  length (List.filter (fun g => bool_decide (g = f)) menu).

(** * Properties *)

(** ** Bytes and [struct] *)

Local Open Scope Z_scope.

Lemma byte_to_Z_range (b : byte) : 0 <= byte_to_Z b <= 255.
Proof.
  unfold byte_to_Z. pose proof (Byte.to_N_bounded b) as Hb.
  split; [apply N2Z.is_nonneg|].
  change 255 with (Z.of_N 255). apply N2Z.inj_le. exact Hb.
Qed.

Lemma byte_to_of_Z (z : Z) : byte_to_Z (byte_of_Z z) = z mod 256.
Proof.
  unfold byte_to_Z, byte_of_Z.
  assert (Hr : 0 <= z mod 256 < 256) by (apply Z.mod_pos_bound; lia).
  destruct (Byte.of_N (Z.to_N (z mod 256))) as [b|] eqn:E.
  - apply Byte.to_of_N in E. rewrite E. rewrite Z2N.id; lia.
  - apply Byte.of_N_None_iff in E.
    apply N2Z.inj_lt in E. rewrite Z2N.id in E by lia.
    change (Z.of_N 255) with 255 in E. lia.
Qed.

Lemma le_decode_nonneg (bs : list byte) : 0 <= le_decode bs.
Proof.
  induction bs as [|b bs IH]; simpl; [lia|].
  pose proof (byte_to_Z_range b). lia.
Qed.

Lemma le_decode_encode (n : nat) (z : Z) :
  0 <= z < 256 ^ Z.of_nat n -> le_decode (le_encode n z) = z.
Proof.
  revert z. induction n as [|n IH]; intros z Hz.
  - simpl in *. lia.
  - cbn [le_encode le_decode]. rewrite byte_to_of_Z.
    rewrite Nat2Z.inj_succ, Z.pow_succ_r in Hz by lia.
    rewrite IH.
    + pose proof (Z.div_mod z 256). lia.
    + split; [apply Z.div_pos; lia|].
      apply Z.div_lt_upper_bound; lia.
Qed.

Lemma le_encode_length (n : nat) (z : Z) : length (le_encode n z) = n.
Proof. revert z. induction n; intros; simpl; auto. Qed.

Lemma unpack_length (s : list fmtchar) (bs : list byte) (vs : list Z) :
  unpack s bs = Some vs -> length bs = calcsize s.
Proof.
  revert bs vs. induction s as [|c s IH]; intros bs vs H.
  - destruct bs; [reflexivity|discriminate].
  - cbn [unpack] in H.
    destruct (length bs <? fmt_size c)%nat eqn:E; [discriminate|].
    apply Nat.ltb_ge in E.
    destruct (unpack s (drop (fmt_size c) bs)) as [vs'|] eqn:E'; [|discriminate].
    apply IH in E'. rewrite length_drop in E'. simpl. lia.
Qed.

Lemma unpack_total (s : list fmtchar) (bs : list byte) :
  length bs = calcsize s -> exists vs, unpack s bs = Some vs.
Proof.
  revert bs. induction s as [|c s IH]; intros bs H.
  - destruct bs; [eauto|discriminate].
  - cbn [unpack]. simpl in H.
    destruct (length bs <? fmt_size c)%nat eqn:E.
    + apply Nat.ltb_lt in E. lia.
    + destruct (IH (drop (fmt_size c) bs)) as [vs Hvs].
      { rewrite length_drop. lia. }
      rewrite Hvs. destruct (unpack_one c _); eauto.
Qed.

(** ** The reader *)

Lemma bind_Ok {A B} (m : Reader.t A) (k : A -> Reader.t B) file b rest :
  Reader.bind m k file = Ok (b, rest) ->
  exists a file', m file = Ok (a, file') /\ k a file' = Ok (b, rest).
Proof.
  unfold Reader.bind. destruct (m file) as [[a file']|e]; [eauto|discriminate].
Qed.

Lemma readstruct_Ok s file tup rest :
  readstruct s file = Ok (tup, rest) ->
  unpack s (take (calcsize s) file) = Some tup /\
  rest = drop (calcsize s) file /\ (calcsize s <= length file)%nat.
Proof.
  unfold readstruct. intros H.
  destruct (unpack s (take (calcsize s) file)) as [vs|] eqn:E; [|discriminate].
  injection H as <- <-. repeat split.
  apply unpack_length in E. rewrite length_take in E. lia.
Qed.

Lemma framed_ret {A} (a : A) : framed (Reader.ret a).
Proof.
  intros file a' rest H. injection H as <- <-. exists []. split; [reflexivity|].
  intros rest'. reflexivity.
Qed.

Lemma framed_bind {A B} (m : Reader.t A) (k : A -> Reader.t B) :
  framed m -> (forall a, framed (k a)) -> framed (Reader.bind m k).
Proof.
  intros Hm Hk file b rest H.
  apply bind_Ok in H as (a & file' & H1 & H2).
  apply Hm in H1 as (u1 & -> & F1). apply Hk in H2 as (u2 & -> & F2).
  exists (u1 ++ u2). split; [by rewrite <- app_assoc|].
  intros rest'. unfold Reader.bind. rewrite <- app_assoc, F1. apply F2.
Qed.

Lemma framed_assert b e : framed (Reader.assert b e).
Proof. destruct b; [apply framed_ret|]. intros file a rest H. discriminate. Qed.

Lemma framed_readstruct s : framed (readstruct s).
Proof.
  intros file tup rest H. apply readstruct_Ok in H as (H1 & -> & H3).
  exists (take (calcsize s) file). split; [by rewrite take_drop|].
  intros rest'. unfold readstruct.
  rewrite take_app_length' by (rewrite length_take; lia).
  rewrite H1. rewrite drop_app_length' by (rewrite length_take; lia). reflexivity.
Qed.

Lemma framed_readstruct1 c : framed (readstruct1 c).
Proof.
  apply framed_bind; [apply framed_readstruct|]. intros a. apply framed_ret.
Qed.

Lemma framed_repeat {A} (n : nat) (body : Reader.t A) :
  framed body -> framed (Reader.repeat n body).
Proof.
  intros Hb. induction n as [|n IH]; simpl; [apply framed_ret|].
  apply framed_bind; [exact Hb|]. intros x.
  apply framed_bind; [exact IH|]. intros xs. apply framed_ret.
Qed.

Lemma advances_readstruct s : advances (readstruct s) (calcsize s).
Proof.
  intros file tup rest H. apply readstruct_Ok in H as (_ & -> & H3).
  rewrite length_drop. lia.
Qed.

Lemma advances_readstruct1 c : advances (readstruct1 c) (fmt_size c).
Proof.
  intros file a rest H. apply bind_Ok in H as (tup & file' & H1 & H2).
  injection H2 as _ <-. apply advances_readstruct in H1. simpl in H1. lia.
Qed.

Lemma advances_repeat {A} (n k : nat) (body : Reader.t A) :
  advances body k ->
  forall file xs rest, Reader.repeat n body file = Ok (xs, rest) ->
    length file = (n * k + length rest)%nat /\ length xs = n.
Proof.
  intros Hb. induction n as [|n IH]; intros file xs rest H.
  - injection H as <- <-. simpl. lia.
  - simpl in H. apply bind_Ok in H as (x & f1 & H1 & H).
    apply bind_Ok in H as (xs' & f2 & H2 & H).
    injection H as <- <-. apply Hb in H1. apply IH in H2 as [H2 H3].
    simpl. lia.
Qed.

Lemma readstruct1_I (b0 b1 b2 b3 : byte) (rest : list byte) :
  readstruct1 fI (b0 :: b1 :: b2 :: b3 :: rest) = Ok (le_decode [b0; b1; b2; b3], rest).
Proof. reflexivity. Qed.

Lemma readstruct1_I_nonneg (file : list byte) (v : Z) (rest : list byte) :
  readstruct1 fI file = Ok (v, rest) -> 0 <= v.
Proof.
  intros H. apply bind_Ok in H as (tup & f' & H & H'). injection H' as <- _.
  apply readstruct_Ok in H as (H & _ & _).
  cbn [unpack unpack_one] in H.
  destruct (length _ <? fmt_size fI)%nat; [discriminate|].
  destruct (drop _ _); [|discriminate].
  injection H as <-. apply le_decode_nonneg.
Qed.

(** ** Rejection of a wrong magic number *)

(** C9: a buffer whose first four bytes, read as a little-endian u32, are
    not 45623 makes [load] fail with [BadMagic]; one whose first four bytes
    are not 13466 makes [loadcob] fail with [BadMagic].  Neither returns a
    mesh. *)
Theorem bad_magic_rejected (b0 b1 b2 b3 : byte) (rest : list byte) :
  (le_decode [b0; b1; b2; b3] <> BOB_FILE_ID ->
   load (b0 :: b1 :: b2 :: b3 :: rest) = Err BadMagic) /\
  (le_decode [b0; b1; b2; b3] <> COB_FILE_ID ->
   loadcob (b0 :: b1 :: b2 :: b3 :: rest) = Err BadMagic).
Proof.
  split; intros Hne.
  - unfold load, Reader.bind at 1. rewrite readstruct1_I.
    unfold Reader.bind at 1.
    destruct (le_decode [b0; b1; b2; b3] =? BOB_FILE_ID) eqn:E; [|reflexivity].
    apply Z.eqb_eq in E. contradiction.
  - unfold loadcob, Reader.bind at 1. rewrite readstruct1_I.
    unfold Reader.bind at 1.
    destruct (le_decode [b0; b1; b2; b3] =? COB_FILE_ID) eqn:E; [|reflexivity].
    apply Z.eqb_eq in E. contradiction.
Qed.

(** a COB header handed to [load], and a BOB header handed to [loadcob] *)
Lemma bad_magic_rejected_witness :
  load (map byte_of_Z [154; 52; 0; 0; 1; 0; 0; 0]) = Err BadMagic /\
  loadcob (map byte_of_Z [55; 178; 0; 0; 1; 0; 0; 0]) = Err BadMagic.
Proof.
  split.
  - apply (bad_magic_rejected (byte_of_Z 154) (byte_of_Z 52) (byte_of_Z 0) (byte_of_Z 0)
             (map byte_of_Z [1; 0; 0; 0])).
    vm_compute. discriminate.
  - apply (bad_magic_rejected (byte_of_Z 55) (byte_of_Z 178) (byte_of_Z 0) (byte_of_Z 0)
             (map byte_of_Z [1; 0; 0; 0])).
    vm_compute. discriminate.
Defined.

(** ** Indices of format variant 0 *)

(** The byte-index variant reads each index with format [b], a signed
    char. *)
Lemma read_index_variant0 (b : byte) (rest : list byte) :
  read_index 0 (b :: rest) = Ok (to_signed 8 (byte_to_Z b), rest).
Proof. unfold read_index, readstruct1, Reader.bind. simpl. by rewrite Z.add_0_r. Qed.

Lemma read_index_variant0_negative (b : byte) (rest : list byte) :
  128 <= byte_to_Z b ->
  exists i, read_index 0 (b :: rest) = Ok (i, rest) /\ i = byte_to_Z b - 256 /\ i < 0.
Proof.
  intros Hb. rewrite read_index_variant0. eexists. split; [reflexivity|].
  pose proof (byte_to_Z_range b). unfold to_signed.
  change (2 ^ (8 - 1)) with 128. change (2 ^ 8) with 256.
  destruct (byte_to_Z b <? 128) eqn:E; [apply Z.ltb_lt in E|]; lia.
Qed.

(** C3: on the variant-0 file whose face is (0, 1, 128), [load] succeeds and
    hands the face (0, 1, -128) to the host: the index byte 128 is read as a
    signed char. *)
Theorem load_variant0_index_signed :
  loaded_faces (load bob_variant0_file) = Some [(0, 1, -128)].
Proof. vm_compute. reflexivity. Qed.

Lemma load_variant1_index_unsigned :
  loaded_faces (load bob_variant1_file) = Some [(0, 1, 128)].
Proof. vm_compute. reflexivity. Qed.

(** ** What [loadcob] reads *)

Lemma framed_loadcob : framed loadcob.
Proof.
  unfold loadcob.
  repeat (first [ apply framed_bind; [|intros ?]
                | apply framed_readstruct1 | apply framed_assert
                | apply framed_repeat | apply framed_readstruct | apply framed_ret ]).
Qed.

Lemma group_faces_length n indices : length (group_faces n indices) = n.
Proof. unfold group_faces. by rewrite length_map, length_seq. Qed.

(** C4, as stated, fails: on the file of one triangle [loadcob] returns with
    the twelve bytes of the face normal still unread, and it returns the
    same data, without complaint, when the normal is missing from the
    file. *)
Lemma loadcob_leaves_normals_unread :
  loadcob (cob_triangle_body ++ cob_triangle_normal)
    = Ok (cob_triangle_data, cob_triangle_normal) /\
  loadcob cob_triangle_body = Ok (cob_triangle_data, []).
Proof. split; vm_compute; reflexivity. Qed.

(** C4, amended: a successful [loadcob] has used the header, the
    [vertexCount] positions and the [faceCount * 3] indices, that is
    [12 + 12 * vertexCount + 12 * faceCount] bytes, and nothing more; what
    follows the indices is left unread and has no influence on the data
    handed to the host, which consists of vertices, no edges, and faces. *)
Theorem loadcob_reads_no_normals (file : list byte) (data : PyData) (rest : list byte) :
  loadcob file = Ok (data, rest) ->
  exists used,
    file = used ++ rest /\
    length used = (12 + 12 * length (pd_verts data) + 12 * length (pd_faces data))%nat /\
    pd_edges data = [] /\
    forall rest', loadcob (used ++ rest') = Ok (data, rest').
Proof.
  intros H. pose proof (framed_loadcob _ _ _ H) as (used & Hfile & Hframe).
  exists used. split; [exact Hfile|]. split; [|split; [|exact Hframe]].
  - unfold loadcob in H.
    apply bind_Ok in H as (magic & f1 & H1 & H).
    apply bind_Ok in H as ([] & f2 & H2 & H).
    apply bind_Ok in H as (vertexCount & f3 & H3 & H).
    apply bind_Ok in H as (faceCount & f4 & H4 & H).
    apply bind_Ok in H as (verts & f5 & H5 & H).
    apply bind_Ok in H as (indices & f6 & H6 & H).
    injection H as <- <-. cbn [pd_verts pd_faces].
    rewrite group_faces_length.
    assert (f2 = f1) as ->.
    { unfold Reader.assert in H2. destruct (magic =? COB_FILE_ID); [|discriminate].
      by injection H2. }
    pose proof (readstruct1_I_nonneg _ _ _ H4) as Hfc.
    apply advances_readstruct1 in H1, H3, H4.
    apply (advances_repeat _ 12) in H5 as [H5 H5'];
      [|intros ? ? ? Hb; apply bind_Ok in Hb as (tup & f' & Hb & Hb');
        injection Hb' as _ <-; by apply advances_readstruct in Hb].
    apply (advances_repeat _ 4) in H6 as [H6 _]; [|apply advances_readstruct1].
    rewrite H5'. rewrite Hfile, length_app in H1. simpl in H1, H3, H4.
    rewrite Z2Nat.inj_mul in H6 by lia. change (Z.to_nat 3) with 3%nat in H6. lia.
  - unfold loadcob in H.
    repeat (apply bind_Ok in H as (? & ? & _ & H)). by injection H as <- _.
Qed.

Lemma loadcob_reads_no_normals_witness :
  exists used,
    cob_triangle_body ++ cob_triangle_normal = used ++ cob_triangle_normal /\
    length used = (12 + 12 * 3 + 12 * 1)%nat /\
    pd_edges cob_triangle_data = [] /\
    forall rest', loadcob (used ++ rest') = Ok (cob_triangle_data, rest').
Proof.
  apply (loadcob_reads_no_normals (cob_triangle_body ++ cob_triangle_normal)
           cob_triangle_data cob_triangle_normal).
  vm_compute. reflexivity.
Defined.

(** ** Quantisation *)

Local Open Scope Q_scope.

Lemma Qltb_lt a b : Qltb a b = true <-> a < b.
Proof. unfold Qltb, Qlt. apply Z.ltb_lt. Qed.

Lemma Qltb_ge a b : Qltb a b = false <-> b <= a.
Proof. unfold Qltb, Qle. apply Z.ltb_ge. Qed.

Lemma clamp_range v lo hi : lo <= hi -> lo <= clamp v lo hi <= hi.
Proof.
  intros H. unfold clamp, py_max, py_min.
  destruct (Qltb hi v) eqn:E1.
  - destruct (Qltb hi lo) eqn:E2.
    + apply Qltb_lt in E2. lra.
    + lra.
  - apply Qltb_ge in E1. destruct (Qltb v lo) eqn:E2.
    + lra.
    + apply Qltb_ge in E2. lra.
Qed.

Lemma py_int_bounds (x : Q) (lo hi : Z) :
  (lo <= 0 <= hi)%Z -> inject_Z lo <= x <= inject_Z hi -> (lo <= py_int x <= hi)%Z.
Proof.
  intros Hz [Hlo Hhi]. unfold py_int. destruct x as [n d].
  unfold Qle in *. simpl in *.
  assert (Hd : (0 < Z.pos d)%Z) by lia.
  destruct (Z_le_gt_dec 0 n) as [Hn|Hn].
  - rewrite Z.quot_div_nonneg by lia. split.
    + pose proof (Z.div_pos n (Z.pos d)). lia.
    + apply Z.div_le_upper_bound; lia.
  - replace n with (- (- n))%Z by lia. rewrite Z.quot_opp_l by lia.
    rewrite Z.quot_div_nonneg by lia. split.
    + assert ((- n) / Z.pos d <= - lo)%Z by (apply Z.div_le_upper_bound; lia). lia.
    + pose proof (Z.div_pos (- n) (Z.pos d)). lia.
Qed.

Lemma py_int_trunc (x : Q) :
  (0 <= x -> inject_Z (py_int x) <= x /\ x < inject_Z (py_int x) + 1) /\
  (x <= 0 -> inject_Z (py_int x) - 1 < x /\ x <= inject_Z (py_int x)).
Proof.
  unfold py_int. destruct x as [n d].
  assert (Hd : (0 < Z.pos d)%Z) by lia.
  split; intros Hx; unfold Qle, Qlt in *; simpl in *.
  - assert (Hn : (0 <= n)%Z) by lia.
    rewrite Z.quot_div_nonneg by lia.
    pose proof (Z.div_mod n (Z.pos d) ltac:(lia)) as Hdm.
    pose proof (Z.mod_pos_bound n (Z.pos d) Hd) as Hmb.
    change (Z.pos (1 * 1)) with 1%Z.
    set (q := (n / Z.pos d)%Z) in *. set (r := (n mod Z.pos d)%Z) in *.
    split; nia.
  - assert (Hn : exists m, n = (- m)%Z /\ (0 <= m)%Z) by (exists (- n)%Z; lia).
    destruct Hn as (m & -> & Hm).
    rewrite Z.quot_opp_l by lia. rewrite Z.quot_div_nonneg by lia.
    pose proof (Z.div_mod m (Z.pos d) ltac:(lia)) as Hdm.
    pose proof (Z.mod_pos_bound m (Z.pos d) Hd) as Hmb.
    change (Z.pos (1 * 1)) with 1%Z.
    set (q := (m / Z.pos d)%Z) in *. set (r := (m mod Z.pos d)%Z) in *.
    split; nia.
Qed.

(** *** Rounding *)

Lemma round_half_even_near (q : Q) :
  inject_Z (round_half_even q) - (1 # 2) <= q /\ q <= inject_Z (round_half_even q) + (1 # 2).
Proof.
  unfold round_half_even.
  pose proof (Qfloor_le q) as H1. pose proof (Qlt_floor q) as H2.
  rewrite inject_Z_plus in H2. change (inject_Z 1) with 1 in H2.
  set (fl := Qfloor q) in *.
  destruct (Qltb (q - inject_Z fl) (1 # 2)) eqn:E1.
  - apply Qltb_lt in E1. lra.
  - apply Qltb_ge in E1. destruct (Qltb (1 # 2) (q - inject_Z fl)) eqn:E2.
    + rewrite inject_Z_plus. change (inject_Z 1) with 1. lra.
    + apply Qltb_ge in E2. destruct (Z.even fl).
      * lra.
      * rewrite inject_Z_plus. change (inject_Z 1) with 1. lra.
Qed.

Lemma round_half_even_nonneg (q : Q) : 0 <= q -> (0 <= round_half_even q)%Z.
Proof.
  intros H. destruct (round_half_even_near q) as [_ H2].
  destruct (Z_lt_le_dec (round_half_even q) 0) as [Hn|Hn]; [|exact Hn].
  exfalso. assert (Hz : (round_half_even q <= -1)%Z) by lia.
  rewrite Zle_Qle in Hz. change (inject_Z (-1)) with (-1) in Hz. lra.
Qed.

Lemma pow2_pos (e : Z) : 0 < 2 ^ e.
Proof. apply Qpower_0_lt. reflexivity. Qed.

Lemma pow2_le (a b : Z) : (a <= b)%Z -> 2 ^ a <= 2 ^ b.
Proof. intros H. apply Qpower_le_compat_l; [exact H|]. discriminate. Qed.

Lemma pow2_nat (n : Z) : (0 <= n)%Z -> 2 ^ n == inject_Z (2 ^ n).
Proof. intros H. rewrite Zpower_Qpower by exact H. reflexivity. Qed.

Lemma exponent_le (q : Q) : 0 < q -> 2 ^ exponent q <= q.
Proof.
  intros Hq. unfold exponent. destruct q as [n d]. cbn [Qnum Qden].
  set (e0 := (Z.log2 n - Z.log2 (Z.pos d))%Z).
  destruct (Qltb (n # d) (2 ^ e0)) eqn:E; [|by apply Qltb_ge in E].
  unfold Qlt in Hq. simpl in Hq.
  assert (Hn : (0 < n)%Z) by lia.
  pose proof (Z.log2_spec n Hn) as [Hn1 _].
  pose proof (Z.log2_spec (Z.pos d) ltac:(lia)) as [_ Hd2].
  pose proof (Z.log2_nonneg n) as Ln. pose proof (Z.log2_nonneg (Z.pos d)) as Ld.
  replace (e0 - 1)%Z with (Z.log2 n - Z.succ (Z.log2 (Z.pos d)))%Z by (subst e0; lia).
  rewrite Qpower_minus by discriminate.
  rewrite !pow2_nat by lia.
  apply Qle_shift_div_r.
  - change 0 with (inject_Z 0). rewrite <- Zlt_Qlt. apply Z.pow_pos_nonneg; lia.
  - unfold Qle, Qmult. cbn [Qnum Qden inject_Z]. nia.
Qed.

Lemma exponent_lt (q : Q) (k : Z) : 0 < q -> q < 2 ^ k -> (exponent q < k)%Z.
Proof.
  intros Hq Hk. pose proof (exponent_le q Hq) as He.
  destruct (Z_lt_le_dec (exponent q) k) as [H|H]; [exact H|].
  exfalso. pose proof (pow2_le _ _ H). lra.
Qed.

Lemma binary64_nonneg (q : Q) : 0 <= binary64 q.
Proof.
  unfold binary64. destruct (Qnum q <=? 0)%Z eqn:E; [lra|].
  apply Z.leb_gt in E.
  apply Qmult_le_0_compat; [|apply Qlt_le_weak, pow2_pos].
  change 0 with (inject_Z 0). rewrite <- Zle_Qle. apply round_half_even_nonneg.
  apply Qle_shift_div_l; [apply pow2_pos|]. unfold Qle. simpl. lia.
Qed.

(** the rounding error is at most half a unit in the last place *)
Lemma binary64_error (q : Q) (k : Z) :
  0 <= q -> q < 2 ^ k -> (-1021 <= k)%Z ->
  q - 2 ^ (k - 54) <= binary64 q /\ binary64 q <= q + 2 ^ (k - 54).
Proof.
  intros H0 Hk Hmin. pose proof (pow2_pos (k - 54)) as Hp.
  unfold binary64. destruct (Qnum q <=? 0)%Z eqn:E.
  - apply Z.leb_le in E. assert (q == 0).
    { apply Qle_antisym; [unfold Qle; simpl; lia|exact H0]. }
    lra.
  - apply Z.leb_gt in E. assert (Hq : 0 < q) by (unfold Qlt; simpl; lia).
    pose proof (exponent_lt q k Hq Hk) as He.
    set (e := Z.max (exponent q - 52) (-1074)).
    assert (Hle : (e <= k - 53)%Z) by (unfold e; lia).
    pose proof (pow2_pos e) as Hpe.
    destruct (round_half_even_near (q / 2 ^ e)) as [R1 R2].
    set (z := inject_Z (round_half_even (q / 2 ^ e))) in *.
    assert (Hx : q == q / 2 ^ e * 2 ^ e) by (field; lra).
    assert (Hhalf : (1 # 2) * 2 ^ e <= 2 ^ (k - 54)).
    { replace (k - 54)%Z with ((k - 53) + (-1))%Z by lia.
      rewrite Qpower_plus by discriminate. change (2 ^ (-1)) with (1 # 2).
      pose proof (pow2_le _ _ Hle). lra. }
    split.
    + assert (q / 2 ^ e * 2 ^ e <= (z + (1 # 2)) * 2 ^ e)
        by (apply Qmult_le_compat_r; lra).
      lra.
    + assert ((z - (1 # 2)) * 2 ^ e <= q / 2 ^ e * 2 ^ e)
        by (apply Qmult_le_compat_r; lra).
      lra.
Qed.

(** the flipped and scaled V, rounded twice, lies within 2^-36 of the exact
    value *)
Lemma flipped_v_rounded (c : Q) :
  0 <= c <= 1 ->
  let y := binary64 (binary64 (1 - c) * 65535) in
  0 <= y /\ (1 - c) * 65535 - (1 # 68719476736) <= y /\ y <= (1 - c) * 65535 + (1 # 68719476736).
Proof.
  intros [Hc0 Hc1] y. split; [apply binary64_nonneg|].
  pose proof (binary64_nonneg (1 - c)) as Ha0.
  assert (E1 : 2 ^ 1 == 2) by reflexivity.
  assert (E2 : 2 ^ (1 - 54) == 1 # 9007199254740992) by reflexivity.
  assert (E3 : 2 ^ 17 == 131072) by reflexivity.
  assert (E4 : 2 ^ (17 - 54) == 1 # 137438953472) by reflexivity.
  destruct (binary64_error (1 - c) 1) as [Ha1 Ha2]; [lra|rewrite E1; lra|lia|].
  rewrite E2 in Ha1, Ha2.
  set (a := binary64 (1 - c)) in *.
  destruct (binary64_error (a * 65535) 17) as [Hb1 Hb2];
    [lra|rewrite E3; lra|lia|].
  rewrite E4 in Hb1, Hb2.
  fold y in Hb1, Hb2. lra.
Qed.

Lemma encode_uv_range (uv : Q * Q) :
  (0 <= fst (encode_uv uv) <= 65535)%Z /\ (0 <= snd (encode_uv uv) <= 65535)%Z.
Proof.
  unfold encode_uv. cbn [fst snd].
  pose proof (clamp_range (fst uv) 0 1 ltac:(lra)) as [? ?].
  pose proof (clamp_range (snd uv) 0 1 ltac:(lra)) as Hc.
  split; [apply py_int_bounds; try lia; unfold inject_Z; lra|].
  destruct (flipped_v_rounded _ Hc) as (Hy0 & _ & Hy1).
  set (y := binary64 _) in *.
  destruct (py_int_trunc y) as [Ht _]. destruct (Ht Hy0) as [Ht1 Ht2].
  assert (Hs : (1 # 68719476736) < 1) by reflexivity.
  split.
  - apply (py_int_bounds y 0 65536); [lia|]. split; [exact Hy0|].
    change (inject_Z 65536) with 65536. lra.
  - assert (Hlt : inject_Z (py_int y) < inject_Z 65536).
    { change (inject_Z 65536) with 65536. lra. }
    rewrite <- Zlt_Qlt in Hlt. lia.
Qed.

Lemma encode_normal_range (n : Q * Q * Q) :
  Forall (fun z => (-32767 <= z <= 32767)%Z) (encode_normal n).
Proof.
  unfold encode_normal. apply Forall_map, Forall_forall. intros c _.
  pose proof (clamp_range c (-1) 1 ltac:(lra)) as [? ?].
  apply py_int_bounds; try lia; unfold inject_Z; lra.
Qed.

(** C5, as stated, fails: the V component is flipped to [1 - V] after it
    is clamped, so UV (1.5, -0.2) is written as (65535, 65535). *)
Lemma encode_uv_example_flipped :
  encode_uv (3 # 2, - (1 # 5)) = (65535, 65535)%Z /\
  encode_uv (3 # 2, - (1 # 5)) <> (65535, 0)%Z.
Proof. split; [by vm_compute|by vm_compute]. Qed.

(** C5, amended: UV (1.5, -0.2) is written as (65535, 65535), V being
    clamped to 0 and then replaced by 1 - V before scaling; the normal
    (2.0, -2.0, 0.0) is written as (32767, -32767, 0).  Every written
    component is the truncation towards zero of the clamped (and, for V,
    flipped) value scaled by 65535 or 32767: UV (0.5, 0.5) gives
    (32767, 32767), the normal component -0.5 gives -16383, and in general
    [int] never moves away from zero and never by a full unit.  For V the
    value that is truncated is the Python float: 1 - V and its product with
    65535 are each rounded to the nearest float, which stays within 2^-36 of
    the exact (1 - V) * 65535 and can reach the next integer, as for
    V = 2^-60, written as 65535. *)
Theorem quantization_clamps_flips_truncates :
  encode_uv (3 # 2, - (1 # 5)) = (65535, 65535)%Z /\
  encode_normal (2, - (2), 0) = [32767; -32767; 0]%Z /\
  encode_uv (1 # 2, 1 # 2) = (32767, 32767)%Z /\
  encode_normal (1 # 2, - (1 # 2), 0) = [16383; -16383; 0]%Z /\
  encode_uv (0, 1 # 1152921504606846976) = (0, 65535)%Z /\
  (forall uv : Q * Q,
     let x := clamp (fst uv) 0 1 * 65535 in
     let y := binary64 (binary64 (1 - clamp (snd uv) 0 1) * 65535) in
     (inject_Z (fst (encode_uv uv)) <= x /\ x < inject_Z (fst (encode_uv uv)) + 1) /\
     (inject_Z (snd (encode_uv uv)) <= y /\ y < inject_Z (snd (encode_uv uv)) + 1) /\
     (1 - clamp (snd uv) 0 1) * 65535 - (1 # 68719476736) <= y /\
     y <= (1 - clamp (snd uv) 0 1) * 65535 + (1 # 68719476736)) /\
  (forall (normal : Q * Q * Q) (i : nat) (c : Q),
     nth_error (components normal) i = Some c ->
     let x := clamp c (-1) 1 * 32767 in
     exists z, nth_error (encode_normal normal) i = Some z /\
       (0 <= x -> inject_Z z <= x /\ x < inject_Z z + 1) /\
       (x <= 0 -> inject_Z z - 1 < x /\ x <= inject_Z z)).
Proof.
  do 5 (split; [by vm_compute|]). split.
  - intros p x y.
    pose proof (clamp_range (fst p) 0 1 ltac:(lra)) as Hu.
    pose proof (clamp_range (snd p) 0 1 ltac:(lra)) as Hv.
    destruct (flipped_v_rounded _ Hv) as (Hy0 & Hy1 & Hy2). fold y in Hy0, Hy1, Hy2.
    split; [apply py_int_trunc; subst x; lra|].
    split; [apply (py_int_trunc y); exact Hy0|]. split; [exact Hy1|exact Hy2].
  - intros n i c Hc x. unfold encode_normal.
    exists (py_int x). split.
    + rewrite nth_error_map, Hc. reflexivity.
    + apply py_int_trunc.
Qed.

(** ** Welding *)

Local Open Scope nat_scope.

Section WeldingProperties.

Context {host : Host}.

Lemma find_app_Some {A} (f : A -> bool) (l ext : list A) (x : A) :
  List.find f l = Some x -> List.find f (l ++ ext) = Some x.
Proof.
  induction l as [|a l IH]; simpl; [discriminate|].
  destruct (f a); auto.
Qed.

Lemma find_app_None {A} (f : A -> bool) (l ext : list A) :
  List.find f l = None -> List.find f (l ++ ext) = List.find f ext.
Proof.
  induction l as [|a l IH]; simpl; [reflexivity|].
  destruct (f a); [discriminate|auto].
Qed.

Lemma extends_refl cls : extends cls cls.
Proof. split; [reflexivity|]. intros k. reflexivity. Qed.

Lemma extends_trans a b c : extends a b -> extends b c -> extends a c.
Proof.
  intros [H1 H2] [H3 H4]. split; [etrans; eauto|]. intros k. etrans; eauto.
Qed.

Lemma get_extends cls c n bi u cls' v :
  get cls c n bi u = (cls', v) -> extends cls cls'.
Proof.
  unfold get. destruct (List.find _ _).
  - intros [= <- _]. apply extends_refl.
  - intros [= <- _]. split; cbn.
    + by apply prefix_app_r.
    + intros k. destruct (decide (bi = k)) as [->|Hne].
      * rewrite lookup_total_insert_eq. by apply prefix_app_r.
      * by rewrite lookup_total_insert_ne.
Qed.

(** [simmilar] does not read the index *)
Lemma simmilar_index c n u (i j : nat) (other : Vert) :
  simmilar {| coords := c; normal := n; uv := u; index := i |} other =
  simmilar {| coords := c; normal := n; uv := u; index := j |} other.
Proof. reflexivity. Qed.

(** after [get], a search with the same attributes finds the vertex that
    [get] returned, when the host finds these attributes similar to
    themselves *)
Lemma get_post cls c n bi u cls' v (i : nat) :
  (let inst := {| coords := c; normal := n; uv := u; index := 0 |} in
   simmilar inst inst = true) ->
  get cls c n bi u = (cls', v) ->
  List.find (simmilar {| coords := c; normal := n; uv := u; index := i |})
            (_by_blender_index cls' !!! bi) = Some v.
Proof.
  intros Hself. unfold get.
  destruct (List.find _ (_by_blender_index cls !!! bi)) as [other|] eqn:E.
  - intros [= <- <-]. exact E.
  - intros [= <- <-]. cbn. rewrite lookup_total_insert_eq.
    change (simmilar {| coords := c; normal := n; uv := u; index := i |})
      with (simmilar {| coords := c; normal := n; uv := u; index := length (_verts cls) |}).
    rewrite find_app_None by exact E. cbn [List.find].
    rewrite (simmilar_index c n u (length (_verts cls)) 0).
    unfold simmilar in *. cbn in *. rewrite Hself. reflexivity.
Qed.

Lemma get_In cls c n bi u cls' v :
  get cls c n bi u = (cls', v) -> In v (_by_blender_index cls' !!! bi).
Proof.
  unfold get.
  destruct (List.find _ (_by_blender_index cls !!! bi)) as [other|] eqn:E.
  - intros [= <- <-]. apply find_some in E as [E _]. exact E.
  - intros [= <- <-]. cbn. rewrite lookup_total_insert_eq.
    apply in_or_app. right. left. reflexivity.
Qed.

Lemma face_loop_cons cls uv_layer l face :
  face_loop cls uv_layer (l :: face) =
    let '(cls1, v) := get cls (co (loop_vert l)) (bm_normal (loop_vert l))
                          (bm_index (loop_vert l)) (corner_uv uv_layer l) in
    let '(cls2, vs) := face_loop cls1 uv_layer face in
    (cls2, v :: vs).
Proof. reflexivity. Qed.

Lemma face_loop_extends uv_layer face : forall cls cls' vs,
  face_loop cls uv_layer face = (cls', vs) -> extends cls cls'.
Proof.
  induction face as [|l face IH]; intros cls cls' vs H.
  - injection H as <- _. apply extends_refl.
  - rewrite face_loop_cons in H.
    destruct (get _ _ _ _ _) as [cls1 v] eqn:E1.
    destruct (face_loop cls1 _ _) as [cls2 vs'] eqn:E2.
    injection H as <- _.
    eapply extends_trans; [eapply get_extends, E1|eapply IH, E2].
Qed.

Lemma face_loop_length uv_layer face : forall cls cls' vs,
  face_loop cls uv_layer face = (cls', vs) -> length vs = length face.
Proof.
  induction face as [|l face IH]; intros cls cls' vs H.
  - by injection H as _ <-.
  - rewrite face_loop_cons in H.
    destruct (get _ _ _ _ _) as [cls1 v] eqn:E1.
    destruct (face_loop cls1 _ _) as [cls2 vs'] eqn:E2.
    injection H as _ <-. simpl. f_equal. eapply IH, E2.
Qed.

Lemma face_loop_app uv_layer f1 : forall cls f2,
  face_loop cls uv_layer (f1 ++ f2) =
    let '(cls1, vs1) := face_loop cls uv_layer f1 in
    let '(cls2, vs2) := face_loop cls1 uv_layer f2 in
    (cls2, vs1 ++ vs2).
Proof.
  induction f1 as [|l f1 IH]; intros cls f2.
  - simpl. by destruct (face_loop cls uv_layer f2).
  - rewrite <- app_comm_cons, !face_loop_cons.
    destruct (get _ _ _ _ _) as [cls1 v]. rewrite IH.
    destruct (face_loop cls1 uv_layer f1) as [cls2 vs1].
    by destruct (face_loop cls2 uv_layer f2).
Qed.

(** the nested loops of [save] weld the corners in face order *)
Lemma faces_loop_concat uv_layer bmfaces : forall cls cls' faces,
  faces_loop cls uv_layer bmfaces = (cls', faces) ->
  face_loop cls uv_layer (concat bmfaces) = (cls', concat faces) /\
  Forall2 (fun face bmface => length face = length bmface) faces bmfaces.
Proof.
  induction bmfaces as [|f bmfaces IH]; intros cls cls' faces H.
  - injection H as <- <-. split; [reflexivity|constructor].
  - simpl in H.
    destruct (face_loop cls uv_layer f) as [cls1 vs] eqn:E1.
    destruct (faces_loop cls1 uv_layer bmfaces) as [cls2 faces'] eqn:E2.
    injection H as <- <-. apply IH in E2 as [E2 E3].
    split.
    + simpl. rewrite face_loop_app, E1, E2. reflexivity.
    + constructor; [eapply face_loop_length, E1|exact E3].
Qed.

(** Every corner is assigned a vertex, which is stored under the source
    index of the corner when the loop ends; for a corner that the host finds
    similar to itself, a search with the corner's attributes then still finds
    that vertex. *)
Lemma face_loop_assigned uv_layer face : forall cls cls' vs,
  face_loop cls uv_layer face = (cls', vs) ->
  forall (i : nat) (l : BMLoop), face !! i = Some l ->
    exists v, vs !! i = Some v /\
      In v (_by_blender_index cls' !!! bm_index (loop_vert l)) /\
      (self_similar uv_layer l ->
       forall k : nat,
         List.find (simmilar (corner_vert uv_layer l k))
                   (_by_blender_index cls' !!! bm_index (loop_vert l)) = Some v).
Proof.
  induction face as [|l0 face IH]; intros cls cls' vs H i l Hi; [done|].
  rewrite face_loop_cons in H.
  destruct (get _ _ _ _ _) as [cls1 v0] eqn:E1.
  destruct (face_loop cls1 _ _) as [cls2 vs'] eqn:E2.
  injection H as <- <-.
  destruct i as [|i]; simpl in Hi.
  - injection Hi as <-. exists v0. split; [reflexivity|].
    apply face_loop_extends in E2 as [_ Hext].
    destruct (Hext (bm_index (loop_vert l0))) as [ext ->].
    split.
    + apply in_or_app. left. eapply get_In, E1.
    + intros Hself k. apply find_app_Some. eapply get_post; [exact Hself|exact E1].
  - eapply IH in E2 as (v & Hv & Hfind); [|exact Hi]. exists v. split; [exact Hv|exact Hfind].
Qed.

(** C7, amended: two face corners of one export that share the source
    index and have the same position, normal and UV, which the host finds
    similar to themselves, are assigned the same vertex, hence the same
    vertex index.  This holds whatever the class held when the export
    started. *)
Theorem weld_same_corner_same_index
    (cls cls' : Verts) (uv_layer : bool) (bmfaces : list (list BMLoop))
    (faces : list (list Vert)) (i j : nat) (l1 l2 : BMLoop) :
  faces_loop cls uv_layer bmfaces = (cls', faces) ->
  concat bmfaces !! i = Some l1 ->
  concat bmfaces !! j = Some l2 ->
  bm_index (loop_vert l1) = bm_index (loop_vert l2) ->
  co (loop_vert l1) = co (loop_vert l2) ->
  bm_normal (loop_vert l1) = bm_normal (loop_vert l2) ->
  loop_uv l1 = loop_uv l2 ->
  self_similar uv_layer l1 ->
  exists v1 v2,
    concat faces !! i = Some v1 /\ concat faces !! j = Some v2 /\
    v1 = v2 /\ index v1 = index v2.
Proof.
  intros H Hi Hj Hidx Hco Hn Huv Hself.
  assert (Hself2 : self_similar uv_layer l2).
  { unfold self_similar, corner_vert, corner_uv in *.
    rewrite <- Hco, <- Hn, <- Huv. exact Hself. }
  apply faces_loop_concat in H as [H _].
  destruct (face_loop_assigned _ _ _ _ _ H i l1 Hi) as (v1 & Hv1 & _ & F1).
  destruct (face_loop_assigned _ _ _ _ _ H j l2 Hj) as (v2 & Hv2 & _ & F2).
  exists v1, v2. split; [exact Hv1|]. split; [exact Hv2|].
  specialize (F1 Hself 0). specialize (F2 Hself2 0).
  unfold corner_vert, corner_uv in F1, F2. rewrite Hidx, Hco, Hn, Huv in F1.
  rewrite F1 in F2. injection F2 as ->. split; reflexivity.
Qed.

Lemma Verts_initial_wf : Verts_wf Verts_initial.
Proof.
  split.
  - intros k v H. cbn in H. rewrite lookup_total_empty in H. destruct H.
  - intros k k' v v' H. cbn in H. rewrite lookup_total_empty in H. destruct H.
Qed.

Lemma get_wf cls c n bi u cls' v :
  Verts_wf cls -> get cls c n bi u = (cls', v) -> Verts_wf cls'.
Proof.
  intros [Hlt Hown]. unfold get. destruct (List.find _ _).
  - intros [= <- _]. split; assumption.
  - intros [= <- _]. cbn.
    assert (Hin : forall k x,
      In x (<[bi := (_by_blender_index cls !!! bi) ++
                     [{| coords := c; normal := n; uv := u;
                         index := length (_verts cls) |}]]>
              (_by_blender_index cls) !!! k) ->
      (In x (_by_blender_index cls !!! k) /\ index x < length (_verts cls)) \/
      (k = bi /\ index x = length (_verts cls))).
    { intros k x Hx. destruct (decide (bi = k)) as [->|Hne].
      - rewrite lookup_total_insert_eq in Hx. apply in_app_or in Hx as [Hx|[<-|[]]].
        + left. split; [exact Hx|]. eapply Hlt, Hx.
        + right. split; reflexivity.
      - rewrite lookup_total_insert_ne in Hx by exact Hne.
        left. split; [exact Hx|]. eapply Hlt, Hx. }
    split; cbn.
    + intros k x Hx. rewrite length_app. simpl.
      apply Hin in Hx as [[_ Hx]|[_ Hx]]; lia.
    + intros k k' x x' Hx Hx' Heq.
      apply Hin in Hx as [[Hx Hl]|[-> Hl]]; apply Hin in Hx' as [[Hx' Hl']|[-> Hl']];
        try lia; try reflexivity.
      eapply Hown; eauto.
Qed.

Lemma face_loop_wf uv_layer face : forall cls cls' vs,
  Verts_wf cls -> face_loop cls uv_layer face = (cls', vs) -> Verts_wf cls'.
Proof.
  induction face as [|l face IH]; intros cls cls' vs Hwf H.
  - by injection H as <- _.
  - rewrite face_loop_cons in H.
    destruct (get _ _ _ _ _) as [cls1 v] eqn:E1.
    destruct (face_loop cls1 _ _) as [cls2 vs'] eqn:E2.
    injection H as <- _. eapply IH; [|exact E2]. eapply get_wf; eauto.
Qed.

Lemma faces_loop_wf cls uv_layer bmfaces cls' faces :
  Verts_wf cls -> faces_loop cls uv_layer bmfaces = (cls', faces) -> Verts_wf cls'.
Proof.
  intros Hwf H. apply faces_loop_concat in H as [H _]. eapply face_loop_wf; eauto.
Qed.

(** every vertex assigned by the loop is stored under the source index of
    its corner when the loop ends *)
Lemma face_loop_stored uv_layer face cls cls' vs (i : nat) (l : BMLoop) (v : Vert) :
  face_loop cls uv_layer face = (cls', vs) ->
  face !! i = Some l -> vs !! i = Some v ->
  In v (_by_blender_index cls' !!! bm_index (loop_vert l)).
Proof.
  intros H Hl Hv.
  destruct (face_loop_assigned _ _ _ _ _ H i l Hl) as (v' & Hv' & F & _).
  rewrite Hv in Hv'. injection Hv' as <-. exact F.
Qed.

(** C8: two face corners of one export with different source indices are
    never assigned the same vertex index, whatever their position, normal
    and UV.  The class state at the start of the export is any state a
    session can reach. *)
Theorem weld_distinct_source_distinct_index
    (cls cls' : Verts) (uv_layer : bool) (bmfaces : list (list BMLoop))
    (faces : list (list Vert)) (i j : nat) (l1 l2 : BMLoop) :
  Verts_wf cls ->
  faces_loop cls uv_layer bmfaces = (cls', faces) ->
  concat bmfaces !! i = Some l1 ->
  concat bmfaces !! j = Some l2 ->
  bm_index (loop_vert l1) <> bm_index (loop_vert l2) ->
  exists v1 v2,
    concat faces !! i = Some v1 /\ concat faces !! j = Some v2 /\
    index v1 <> index v2.
Proof.
  intros Hwf H Hi Hj Hne.
  pose proof (faces_loop_wf _ _ _ _ _ Hwf H) as [_ Hown].
  apply faces_loop_concat in H as [H _].
  destruct (face_loop_assigned _ _ _ _ _ H i l1 Hi) as (v1 & Hv1 & _).
  destruct (face_loop_assigned _ _ _ _ _ H j l2 Hj) as (v2 & Hv2 & _).
  exists v1, v2. split; [exact Hv1|]. split; [exact Hv2|].
  intros Heq. apply Hne. eapply Hown; [| |exact Heq].
  - eapply face_loop_stored; eauto.
  - eapply face_loop_stored; eauto.
Qed.

End WeldingProperties.

(** *** Vectors of rational components *)

Local Open Scope Q_scope.

Lemma vec_similar_refl3 (v : Q * Q * Q) : vec_similar v v = true.
Proof.
  unfold vec_similar. apply Qltb_lt. destruct v as [[a b] c]. cbn.
  assert (E : (a - a) * (a - a) + (b - b) * (b - b) + (c - c) * (c - c) == 0) by ring.
  rewrite E. by vm_compute.
Qed.

Lemma vec_similar_refl2 (v : Q * Q) : vec_similar v v = true.
Proof.
  unfold vec_similar. apply Qltb_lt. destruct v as [a b]. cbn.
  assert (E : (a - a) * (a - a) + (b - b) * (b - b) == 0) by ring.
  rewrite E. by vm_compute.
Qed.

(** in exact arithmetic every vertex is similar to itself *)
Lemma simmilar_refl (v : Vert) : simmilar v v = true.
Proof.
  unfold simmilar. rewrite !vec_similar_refl3.
  destruct (uv v); [rewrite vec_similar_refl2|]; reflexivity.
Qed.

Local Open Scope nat_scope.

(** ** The writer *)


Section Writer.

Context {host : Host} {parts : Components}.

Variable pack_f : Q -> list byte.
Variable bm_triangulate : Mesh -> Mesh.


Lemma writestruct_I (z : Z) (file : list byte) :
  (0 <= z < 4294967296)%Z ->
  writestruct pack_f [fI] [PInt z] file = (file ++ le_encode 4 z, Ok tt).
Proof.
  intros Hz. unfold writestruct. cbn [pack pack_one].
  unfold in_range. replace (0 <=? z)%Z with true by (symmetry; apply Z.leb_le; lia).
  replace (z <=? 4294967295)%Z with true by (symmetry; apply Z.leb_le; lia).
  cbn [andb]. by rewrite app_nil_r.
Qed.

Lemma writestruct_H (z : Z) (file : list byte) :
  (0 <= z <= 65535)%Z ->
  writestruct pack_f [fH] [PInt z] file = (file ++ le_encode 2 z, Ok tt).
Proof.
  intros Hz. unfold writestruct. cbn [pack pack_one].
  unfold in_range. replace (0 <=? z)%Z with true by (symmetry; apply Z.leb_le; lia).
  replace (z <=? 65535)%Z with true by (symmetry; apply Z.leb_le; lia).
  cbn [andb]. by rewrite app_nil_r.
Qed.


Lemma writestruct_fff (v : vec3) (file : list byte) :
  writestruct pack_f [ff; ff; ff] (map PFloat (components (xyz v))) file
    = (file ++ vec3_bytes pack_f v, Ok tt).
Proof. unfold vec3_bytes. destruct (xyz v) as [[a b] c]. reflexivity. Qed.

Lemma write_vert_ok (v : Vert) (file : list byte) :
  write_vert pack_f v file = (file ++ vert_bytes pack_f v, Ok tt).
Proof.
  unfold write_vert, vert_bytes.
  unfold Writer.bind at 1. rewrite writestruct_fff.
  unfold Writer.bind at 1.
  assert (Huv : (match uv v with
                 | Some uv => writestruct pack_f [fH; fH]
                                [PInt (fst (encode_uv (xy uv))); PInt (snd (encode_uv (xy uv)))]
                 | None => writestruct pack_f [fH; fH] [PInt 0%Z; PInt 0%Z]
                 end) (file ++ vec3_bytes pack_f (coords v))
          = ((file ++ vec3_bytes pack_f (coords v)) ++
             match uv v with
             | Some uv =>
                 le_encode 2 (fst (encode_uv (xy uv))) ++ le_encode 2 (snd (encode_uv (xy uv)))
             | None => le_encode 2 0 ++ le_encode 2 0
             end, Ok tt)).
  { destruct (uv v) as [p|]; [|reflexivity].
    destruct (encode_uv_range (xy p)) as [H1 H2].
    set (w := encode_uv (xy p)) in *.
    unfold writestruct. cbn [pack pack_one]. unfold in_range.
    replace (0 <=? fst w)%Z with true by (symmetry; apply Z.leb_le; lia).
    replace (fst w <=? 65535)%Z with true by (symmetry; apply Z.leb_le; lia).
    replace (0 <=? snd w)%Z with true by (symmetry; apply Z.leb_le; lia).
    replace (snd w <=? 65535)%Z with true by (symmetry; apply Z.leb_le; lia).
    cbn [andb]. by rewrite app_nil_r. }
  rewrite Huv. clear Huv.
  unfold Writer.bind at 1.
  pose proof (encode_normal_range (xyz (normal v))) as Hn.
  destruct (xyz (normal v)) as [[a b] c]. unfold encode_normal in *. cbn [components map fst snd] in *.
  inversion Hn as [|? ? Ha Hn1]; subst. inversion Hn1 as [|? ? Hb Hn2]; subst.
  inversion Hn2 as [|? ? Hc _]; subst.
  unfold writestruct. cbn [pack pack_one]. unfold in_range.
  repeat match goal with
  | |- context [(?lo <=? ?z)%Z] =>
      replace (lo <=? z)%Z with true by (symmetry; apply Z.leb_le; lia)
  end.
  cbn [andb flat_map]. rewrite !app_nil_r, <- !app_assoc. reflexivity.
Qed.

Lemma for_each_app {A} (xs ys : list A) (body : A -> Writer.t unit) (file : list byte) :
  Writer.for_each (xs ++ ys) body file =
    match Writer.for_each xs body file with
    | (file', Ok _) => Writer.for_each ys body file'
    | (file', Err e) => (file', Err e)
    end.
Proof.
  revert file. induction xs as [|x xs IH]; intros file; [reflexivity|].
  cbn [app Writer.for_each]. unfold Writer.bind.
  destruct (body x file) as [file' [[]|e]]; [apply IH|reflexivity].
Qed.

Lemma for_each_ok {A} (xs : list A) (body : A -> Writer.t unit) (enc : A -> list byte) :
  (forall x file, In x xs -> body x file = (file ++ enc x, Ok tt)) ->
  forall file, Writer.for_each xs body file = (file ++ flat_map enc xs, Ok tt).
Proof.
  induction xs as [|x xs IH]; intros Hb file.
  - cbn. by rewrite app_nil_r.
  - cbn [Writer.for_each flat_map]. unfold Writer.bind.
    rewrite Hb by (left; reflexivity). rewrite IH.
    + by rewrite <- app_assoc.
    + intros y f Hy. apply Hb. right. exact Hy.
Qed.

Lemma write_face_triangle (face : list Vert) (file : list byte) :
  is_triangle face ->
  write_face pack_f face file = Writer.for_each face (write_index pack_f) file.
Proof.
  intros H. unfold write_face, Writer.bind, Writer.assert. red in H. rewrite H. reflexivity.
Qed.


Lemma for_each_faces_concat (faces : list (list Vert)) :
  Forall is_triangle faces ->
  forall file, Writer.for_each faces (write_face pack_f) file
             = Writer.for_each (concat faces) (write_index pack_f) file.
Proof.
  induction 1 as [|face faces Hf _ IH]; intros file; [reflexivity|].
  cbn [Writer.for_each concat]. unfold Writer.bind at 1.
  rewrite write_face_triangle by exact Hf. rewrite for_each_app.
  destruct (Writer.for_each face (write_index pack_f) file) as [file' [[]|e]]; [apply IH|reflexivity].
Qed.

Lemma write_index_ok (v : Vert) (file : list byte) :
  fits_u16 v -> write_index pack_f v file = (file ++ index_bytes v, Ok tt).
Proof. intros H. apply writestruct_H. red in H. lia. Qed.

Lemma for_each_index_ok (vs : list Vert) (file : list byte) :
  Forall fits_u16 vs ->
  Writer.for_each vs (write_index pack_f) file = (file ++ flat_map index_bytes vs, Ok tt).
Proof.
  intros H. apply for_each_ok. intros v f Hv. apply write_index_ok.
  rewrite Forall_forall in H. apply H, list_elem_of_In, Hv.
Qed.



(** [save] up to the loop over the faces: the header and the vertex records
    are written whenever the two counts fit an unsigned int *)
Lemma save_eq cls mesh triangulate verts faces :
  welded bm_triangulate cls mesh triangulate = (verts, faces) ->
  fits_u32 (length (_verts verts)) -> fits_u32 (length faces) ->
  save pack_f bm_triangulate cls mesh triangulate =
    (verts,
     Writer.for_each faces (write_face pack_f)
       (bob_header (length (_verts verts)) (length faces)
        ++ flat_map (vert_bytes pack_f) (_verts verts))).
Proof.
  unfold welded, save, fits_u32. intros -> Hv Hf. f_equal.
  unfold Writer.bind at 1. rewrite writestruct_I by (unfold BOB_FILE_ID; lia).
  unfold Writer.bind at 1. rewrite writestruct_I by lia.
  unfold Writer.bind at 1. rewrite writestruct_I by lia.
  unfold Writer.bind at 1. rewrite writestruct_I by lia.
  unfold Writer.bind at 1.
  rewrite (for_each_ok _ _ (vert_bytes pack_f)) by (intros; apply write_vert_ok).
  unfold bob_header. cbn [app]. rewrite <- !app_assoc. reflexivity.
Qed.


Lemma save_state cls mesh triangulate :
  fst (save pack_f bm_triangulate cls mesh triangulate) = fst (welded bm_triangulate cls mesh triangulate).
Proof. unfold save, welded. by destruct (faces_loop _ _ _). Qed.

Lemma welded_wf cls mesh triangulate verts faces :
  Verts_wf cls -> welded bm_triangulate cls mesh triangulate = (verts, faces) -> Verts_wf verts.
Proof. unfold welded. intros Hwf H. eapply faces_loop_wf; eauto. Qed.

(** what an export leaves in the class is what it found there, and more *)
Lemma save_extends cls mesh triangulate :
  extends cls (fst (save pack_f bm_triangulate cls mesh triangulate)).
Proof.
  rewrite save_state. unfold welded.
  destruct (faces_loop _ _ _) as [verts faces] eqn:E.
  apply faces_loop_concat in E as [E _]. eapply face_loop_extends, E.
Qed.


(** every index used by a face is the index of a vertex of the class *)
Lemma welded_indices cls mesh triangulate verts faces :
  Verts_wf cls -> welded bm_triangulate cls mesh triangulate = (verts, faces) ->
  Forall (fun v => index v < length (_verts verts)) (concat faces).
Proof.
  intros Hwf H. pose proof (welded_wf _ _ _ _ _ Hwf H) as [Hlt _].
  unfold welded in H. apply faces_loop_concat in H as [H _].
  apply Forall_forall. intros v Hv.
  apply list_elem_of_lookup in Hv as [i Hi].
  pose proof (face_loop_length _ _ _ _ _ H) as Hlen.
  destruct (lookup_lt_is_Some_2 (concat (bm_faces (triangulation_gate bm_triangulate mesh triangulate))) i)
    as [l Hl].
  { rewrite <- Hlen. eapply lookup_lt_Some, Hi. }
  eapply Hlt, face_loop_stored; eauto.
Qed.


Lemma index_bytes_decode (v : Vert) :
  fits_u16 v -> le_decode (index_bytes v) = Z.of_nat (index v).
Proof.
  intros H. apply le_decode_encode. red in H. change (256 ^ Z.of_nat 2)%Z with 65536%Z. lia.
Qed.





(** *** What a normal end of [save] tells *)

Lemma bind_Ok_inv {A B} (m : Writer.t A) (k : A -> Writer.t B) (file : list byte) (b : B) :
  snd (Writer.bind m k file) = Ok b ->
  exists a, snd (m file) = Ok a /\ snd (k a (fst (m file))) = Ok b.
Proof.
  unfold Writer.bind. destruct (m file) as [file' [a|e]]; [|discriminate].
  intros H. exists a. by split.
Qed.

Lemma writestruct_I_inv (z : Z) (file : list byte) :
  snd (writestruct pack_f [fI] [PInt z] file) = Ok tt -> (0 <= z <= 4294967295)%Z.
Proof.
  unfold writestruct. cbn [pack pack_one]. unfold in_range.
  destruct (_ && _) eqn:E; [|discriminate]. intros _.
  apply andb_prop in E as [E1 E2]. apply Z.leb_le in E1, E2. lia.
Qed.

Lemma writestruct_H_inv (z : Z) (file : list byte) :
  snd (writestruct pack_f [fH] [PInt z] file) = Ok tt -> (0 <= z <= 65535)%Z.
Proof.
  unfold writestruct. cbn [pack pack_one]. unfold in_range.
  destruct (_ && _) eqn:E; [|discriminate]. intros _.
  apply andb_prop in E as [E1 E2]. apply Z.leb_le in E1, E2. lia.
Qed.

Lemma for_each_Ok_inv {A} (xs : list A) (body : A -> Writer.t unit) (file : list byte) :
  snd (Writer.for_each xs body file) = Ok tt ->
  Forall (fun x => exists f, snd (body x f) = Ok tt) xs.
Proof.
  revert file. induction xs as [|x xs IH]; intros file H; [constructor|].
  cbn [Writer.for_each] in H. apply bind_Ok_inv in H as ([] & H1 & H2).
  constructor; [eauto|eapply IH, H2].
Qed.

Lemma write_face_Ok_inv (face : list Vert) (file : list byte) :
  snd (write_face pack_f face file) = Ok tt -> is_triangle face /\ Forall fits_u16 face.
Proof.
  unfold write_face. intros H. apply bind_Ok_inv in H as ([] & H1 & H2). split.
  - unfold Writer.assert in H1. destruct (length face =? 3) eqn:E; [|discriminate].
    by apply Nat.eqb_eq in E.
  - apply for_each_Ok_inv in H2. eapply Forall_impl; [exact H2|].
    intros v [f Hf]. apply writestruct_H_inv in Hf. unfold fits_u16. lia.
Qed.

(** when [save] ends normally, both counts have fitted their fields, every
    face has been a triangle and every index has fitted two bytes *)
Lemma save_Ok_inv cls mesh triangulate verts faces :
  welded bm_triangulate cls mesh triangulate = (verts, faces) ->
  snd (snd (save pack_f bm_triangulate cls mesh triangulate)) = Ok tt ->
  fits_u32 (length (_verts verts)) /\ fits_u32 (length faces) /\
  Forall is_triangle faces /\ Forall fits_u16 (concat faces).
Proof.
  unfold welded, save. intros -> H. cbn [snd] in H.
  apply bind_Ok_inv in H as ([] & _ & H).
  apply bind_Ok_inv in H as ([] & _ & H).
  apply bind_Ok_inv in H as ([] & Hv & H).
  apply bind_Ok_inv in H as ([] & Hf & H).
  apply bind_Ok_inv in H as ([] & _ & H).
  apply writestruct_I_inv in Hv, Hf. apply for_each_Ok_inv in H.
  split; [unfold fits_u32; lia|]. split; [unfold fits_u32; lia|].
  assert (Hall : Forall (fun face => is_triangle face /\ Forall fits_u16 face) faces).
  { eapply Forall_impl; [exact H|]. intros face [f Hface]. eapply write_face_Ok_inv, Hface. }
  split.
  - eapply Forall_impl; [exact Hall|]. by intros face [? _].
  - apply Forall_concat. eapply Forall_impl; [exact Hall|]. by intros face [_ ?].
Qed.

(** the file of an export that ends normally *)
Lemma save_Ok_file cls mesh triangulate verts faces :
  welded bm_triangulate cls mesh triangulate = (verts, faces) ->
  snd (snd (save pack_f bm_triangulate cls mesh triangulate)) = Ok tt ->
  fst (snd (save pack_f bm_triangulate cls mesh triangulate)) =
    bob_header (length (_verts verts)) (length faces)
    ++ flat_map (vert_bytes pack_f) (_verts verts)
    ++ flat_map index_bytes (concat faces).
Proof.
  intros Hw Hok. destruct (save_Ok_inv _ _ _ _ _ Hw Hok) as (Hnv & Hnf & Htri & Hfit).
  rewrite (save_eq _ _ _ _ _ Hw) by assumption. cbn [snd].
  rewrite for_each_faces_concat by exact Htri.
  rewrite for_each_index_ok by exact Hfit. cbn [fst]. by rewrite <- !app_assoc.
Qed.




Lemma cob_header_not_nil n m rest : cob_header n m ++ rest <> [].
Proof. unfold cob_header. cbn [le_encode app]. discriminate. Qed.

Lemma write_tessface_ok (face : TessFace) (file : list byte) :
  tess_triangle face -> tess_fits_u32 face ->
  write_tessface pack_f face file = (file ++ tess_index_bytes face, Ok tt).
Proof.
  intros Htri Hfit. unfold write_tessface, Writer.bind, Writer.assert.
  red in Htri. red in Htri. rewrite Htri. cbn [Nat.eqb Writer.ret].
  apply for_each_ok. intros vertid f Hin. apply writestruct_I.
  red in Hfit. rewrite Forall_forall in Hfit.
  specialize (Hfit vertid (proj2 (list_elem_of_In _ _) Hin)). red in Hfit. lia.
Qed.

Lemma write_tessface_malformed (face : TessFace) (file : list byte) :
  ~ tess_triangle face -> write_tessface pack_f face file = (file, Err MalformedMesh).
Proof.
  intros H. unfold write_tessface, Writer.bind, Writer.assert.
  destruct (length (vertices face) =? 3) eqn:E; [|reflexivity].
  apply Nat.eqb_eq in E. contradiction.
Qed.

Lemma for_each_tess_malformed (tpre tpost : list TessFace) (tface : TessFace)
    (file : list byte) :
  Forall tess_triangle tpre -> Forall tess_fits_u32 tpre -> ~ tess_triangle tface ->
  Writer.for_each (tpre ++ tface :: tpost) (write_tessface pack_f) file
    = (file ++ flat_map tess_index_bytes tpre, Err MalformedMesh).
Proof.
  intros Htri Hfit Hbad. rewrite for_each_app.
  rewrite (for_each_ok _ _ tess_index_bytes).
  - cbn [Writer.for_each]. unfold Writer.bind.
    by rewrite write_tessface_malformed by exact Hbad.
  - intros face f Hin. rewrite Forall_forall in Htri, Hfit.
    apply list_elem_of_In in Hin. by apply write_tessface_ok; [apply Htri|apply Hfit].
Qed.

(** [savecob] up to the loop over the faces *)
Lemma savecob_eq mesh triangulate :
  let mesh' := triangulation_gate bm_triangulate mesh triangulate in
  fits_u32 (length (mesh_vertices mesh')) -> fits_u32 (length (tessfaces mesh')) ->
  savecob pack_f bm_triangulate mesh triangulate =
    match Writer.for_each (tessfaces mesh') (write_tessface pack_f)
            (cob_header (length (mesh_vertices mesh')) (length (tessfaces mesh'))
             ++ flat_map (vec3_bytes pack_f) (mesh_vertices mesh')) with
    | (file, Ok _) =>
        (file ++ flat_map (fun face => vec3_bytes pack_f (tf_normal face)) (tessfaces mesh'),
         Ok tt)
    | (file, Err e) => (file, Err e)
    end.
Proof.
  intros mesh' Hv Hf. unfold savecob, fits_u32 in *. fold mesh'.
  unfold Writer.bind at 1. rewrite writestruct_I by (unfold COB_FILE_ID; lia).
  unfold Writer.bind at 1. rewrite writestruct_I by lia.
  unfold Writer.bind at 1. rewrite writestruct_I by lia.
  unfold Writer.bind at 1.
  rewrite (for_each_ok _ _ (vec3_bytes pack_f)) by (intros; apply writestruct_fff).
  unfold Writer.bind at 1. unfold cob_header. cbn [app]. rewrite <- !app_assoc.
  destruct (Writer.for_each (tessfaces mesh') _ _) as [file [[]|e]]; [|reflexivity].
  apply for_each_ok. intros; apply writestruct_fff.
Qed.

Lemma seo_ret {A} (a : A) : struct_errors_only (Writer.ret a).
Proof. intros file e H. discriminate H. Qed.

Lemma seo_bind {A B} (m : Writer.t A) (k : A -> Writer.t B) :
  struct_errors_only m -> (forall a, struct_errors_only (k a)) ->
  struct_errors_only (Writer.bind m k).
Proof.
  intros Hm Hk file e. unfold Writer.bind.
  destruct (m file) as [file' [a|e']] eqn:E.
  - apply Hk.
  - intros [= <-]. apply (Hm file). by rewrite E.
Qed.

Lemma seo_writestruct s args : struct_errors_only (writestruct pack_f s args).
Proof.
  intros file e. unfold writestruct. destruct (pack pack_f s args); [discriminate|].
  by intros [= <-].
Qed.

Lemma seo_for_each {A} (xs : list A) (body : A -> Writer.t unit) :
  (forall x, In x xs -> struct_errors_only (body x)) ->
  struct_errors_only (Writer.for_each xs body).
Proof.
  induction xs as [|x xs IH]; intros Hb; [apply seo_ret|].
  cbn [Writer.for_each]. apply seo_bind; [apply Hb; by left|].
  intros _. apply IH. intros y Hy. apply Hb. by right.
Qed.

Lemma seo_write_vert v : struct_errors_only (write_vert pack_f v).
Proof.
  intros file e. rewrite write_vert_ok. discriminate.
Qed.

Lemma seo_write_face face : is_triangle face -> struct_errors_only (write_face pack_f face).
Proof.
  intros H file e. rewrite write_face_triangle by exact H.
  apply seo_for_each. intros v _. apply seo_writestruct.
Qed.

Lemma seo_write_tessface face :
  tess_triangle face -> struct_errors_only (write_tessface pack_f face).
Proof.
  intros H. unfold write_tessface. red in H. red in H.
  unfold Writer.assert. rewrite H. cbn [Nat.eqb].
  apply seo_bind; [apply seo_ret|]. intros _.
  apply seo_for_each. intros v _. apply seo_writestruct.
Qed.






(** a complete COB file *)
Lemma savecob_ok mesh triangulate :
  let mesh' := triangulation_gate bm_triangulate mesh triangulate in
  Forall tess_triangle (tessfaces mesh') -> Forall tess_fits_u32 (tessfaces mesh') ->
  fits_u32 (length (mesh_vertices mesh')) -> fits_u32 (length (tessfaces mesh')) ->
  savecob pack_f bm_triangulate mesh triangulate =
    (cob_header (length (mesh_vertices mesh')) (length (tessfaces mesh'))
     ++ flat_map (vec3_bytes pack_f) (mesh_vertices mesh')
     ++ flat_map tess_index_bytes (tessfaces mesh')
     ++ flat_map (fun face => vec3_bytes pack_f (tf_normal face)) (tessfaces mesh'), Ok tt).
Proof.
  intros mesh' Htri Hfit Hnv Hnf. rewrite savecob_eq by assumption. fold mesh'.
  rewrite (for_each_ok _ _ tess_index_bytes).
  - by rewrite <- !app_assoc.
  - intros face f Hin. rewrite Forall_forall in Htri, Hfit.
    apply list_elem_of_In in Hin. by apply write_tessface_ok; [apply Htri|apply Hfit].
Qed.



End Writer.

(** ** Sessions *)

(** C1: in one session, export [triangle_a] and then [triangle_b].  The
    second export starts with the three vertices of the first in the class,
    writes a vertex count of 6 and the face (3, 4, 5); the same export in a
    fresh session writes a vertex count of 3 and the face (0, 1, 2). *)
Theorem second_export_depends_on_first :
  length (_verts after_a) = 3 /\
  le_decode (take 4 (drop 8 (file_of (bob Verts_initial triangle_b false)))) = 3%Z /\
  le_decode (take 4 (drop 8 (file_of (bob after_a triangle_b false)))) = 6%Z /\
  drop 88 (file_of (bob Verts_initial triangle_b false))
    = flat_map (le_encode 2) [0; 1; 2]%Z /\
  drop 160 (file_of (bob after_a triangle_b false))
    = flat_map (le_encode 2) [3; 4; 5]%Z /\
  outcome_of (bob after_a triangle_b false) = Ok tt /\
  file_of (bob after_a triangle_b false) <> file_of (bob Verts_initial triangle_b false).
Proof.
  do 6 (split; [vm_compute; reflexivity|]).
  intros H. apply (f_equal (@length byte)) in H. vm_compute in H. discriminate H.
Qed.

(** ** Faces that are not triangles *)





(** ** Welding of the square *)

(** C7, as stated, fails: a corner whose position has an infinite
    component is not similar to itself, the difference of the position with
    itself having a NaN length.  Three times the same corner of the same mesh
    vertex are assigned three vertices, with the indices 0, 1 and 2. *)
Lemma far_corners_welded_apart :
  let bmfaces := [[far_corner; far_corner; far_corner]] in
  let faces := snd (@faces_loop xfloat_host (@Verts_initial xfloat_host) true bmfaces) in
  exists l1 l2 v1 v2,
    concat bmfaces !! 0 = Some l1 /\ concat bmfaces !! 1 = Some l2 /\
    bm_index (loop_vert l1) = bm_index (loop_vert l2) /\
    co (loop_vert l1) = co (loop_vert l2) /\
    bm_normal (loop_vert l1) = bm_normal (loop_vert l2) /\
    loop_uv l1 = loop_uv l2 /\
    concat faces !! 0 = Some v1 /\ concat faces !! 1 = Some v2 /\
    index v1 <> index v2 /\
    map (map index) faces = [[0; 1; 2]].
Proof.
  intros bmfaces faces. exists far_corner, far_corner.
  eexists. eexists. do 6 (split; [reflexivity|]).
  split; [by vm_compute|]. split; [by vm_compute|]. split; [|by vm_compute].
  cbn. discriminate.
Qed.

(** corners 0 and 3 of the square are the same corner of mesh vertex 0 *)
Lemma weld_same_corner_same_index_witness :
  exists v1 v2,
    concat (snd (faces_loop Verts_initial true (bm_faces square))) !! 0 = Some v1 /\
    concat (snd (faces_loop Verts_initial true (bm_faces square))) !! 3 = Some v2 /\
    v1 = v2 /\ index v1 = index v2.
Proof.
  apply (weld_same_corner_same_index Verts_initial
           (fst (faces_loop Verts_initial true (bm_faces square))) true (bm_faces square)
           (snd (faces_loop Verts_initial true (bm_faces square))) 0 3
           (bm_corner 0 0 0 0 0 0) (bm_corner 0 0 0 0 0 0));
    first [apply surjective_pairing | reflexivity].
Defined.

Lemma weld_distinct_source_distinct_index_witness :
  exists v1 v2,
    concat (snd (faces_loop Verts_initial true doubled)) !! 0 = Some v1 /\
    concat (snd (faces_loop Verts_initial true doubled)) !! 1 = Some v2 /\
    index v1 <> index v2.
Proof.
  apply (weld_distinct_source_distinct_index Verts_initial
           (fst (faces_loop Verts_initial true doubled)) true doubled
           (snd (faces_loop Verts_initial true doubled)) 0 1
           (bm_corner 0 0 0 0 0 0) (bm_corner 0 0 0 1 0 0)).
  - apply Verts_initial_wf.
  - apply surjective_pairing.
  - reflexivity.
  - reflexivity.
  - cbn. lia.
Defined.

(** ** Index packing *)


(** a face whose third vertex has index 65536: the first two indices are
    written, the third makes [struct.pack] raise *)
Example index_65536_is_not_packed :
  let v i := {| coords := (0, 0, 0)%Q; normal := up; uv := None; index := i |} in
  Writer.for_each [[v 0; v (Z.to_nat 65535); v (Z.to_nat 65536)]] (write_face pack_f32) []
    = (flat_map (le_encode 2) [0; 65535]%Z, Err StructError).
Proof. vm_compute. reflexivity. Qed.

(** * Further properties *)

(** ** How far the loaders read *)

Lemma readstruct_enough s file :
  calcsize s <= length file ->
  exists tup, readstruct s file = Ok (tup, drop (calcsize s) file).
Proof.
  intros H. unfold readstruct.
  destruct (unpack_total s (take (calcsize s) file)) as [tup ->]; [|eauto].
  rewrite length_take. lia.
Qed.

Lemma readstruct_short s file :
  length file < calcsize s -> readstruct s file = Err StructError.
Proof.
  intros H. unfold readstruct.
  destruct (unpack s (take (calcsize s) file)) as [tup|] eqn:E; [|reflexivity].
  apply unpack_length in E. rewrite length_take in E. lia.
Qed.

Lemma readstruct1_short c file :
  length file < fmt_size c -> readstruct1 c file = Err StructError.
Proof.
  intros H. unfold readstruct1, Reader.bind. rewrite readstruct_short; [reflexivity|].
  simpl. lia.
Qed.

Lemma readstruct1_I_at file :
  4 <= length file ->
  readstruct1 fI file = Ok (le_decode (take 4 file), drop 4 file).
Proof.
  intros H. destruct file as [|b0 [|b1 [|b2 [|b3 rest]]]]; simpl in H; try lia.
  reflexivity.
Qed.

Lemma fixed_size_readstruct1 c : fixed_size (readstruct1 c) (fmt_size c).
Proof.
  split.
  - intros file H. unfold readstruct1, Reader.bind.
    destruct (readstruct_enough [c] file) as [tup ->]; [simpl; lia|].
    simpl. rewrite Nat.add_0_r. eauto.
  - apply readstruct1_short.
Qed.

Lemma fixed_size_read_vertex : fixed_size read_vertex 24.
Proof.
  split.
  - intros file H. unfold read_vertex, Reader.bind.
    destruct (readstruct_enough [ff; ff; ff; fH; fH; fh; fh; fh; fx; fx] file) as [tup ->];
      [simpl; lia|].
    simpl. eauto.
  - intros file H. unfold read_vertex, Reader.bind. rewrite readstruct_short; [reflexivity|].
    simpl. lia.
Qed.

Lemma fixed_size_read_position : fixed_size read_position 12.
Proof.
  split.
  - intros file H. unfold read_position, Reader.bind.
    destruct (readstruct_enough [ff; ff; ff] file) as [tup ->]; [simpl; lia|].
    simpl. eauto.
  - intros file H. unfold read_position, Reader.bind. rewrite readstruct_short; [reflexivity|].
    simpl. lia.
Qed.

Lemma fixed_size_read_index meshFormat :
  fixed_size (read_index meshFormat) (index_width meshFormat).
Proof.
  unfold read_index, index_width. destruct (meshFormat =? 0)%Z; apply fixed_size_readstruct1.
Qed.

Lemma repeat_fixed_size {A} (body : Reader.t A) (k n : nat) (file : list byte) :
  fixed_size body k ->
  (n * k <= length file ->
     exists xs, Reader.repeat n body file = Ok (xs, drop (n * k) file) /\ length xs = n) /\
  (length file < n * k -> Reader.repeat n body file = Err StructError).
Proof.
  intros [Hok Herr]. revert file. induction n as [|n IH]; intros file.
  - split; [|simpl; lia]. intros _. exists []. split; reflexivity.
  - cbn [Reader.repeat]. split.
    + intros H. unfold Reader.bind at 1.
      destruct (Hok file) as [a ->]; [simpl in H; lia|].
      unfold Reader.bind. destruct (proj1 (IH (drop k file))) as (xs & -> & Hlen).
      { rewrite length_drop. simpl in H. lia. }
      exists (a :: xs). split; [|simpl; lia].
      unfold Reader.ret. rewrite drop_drop.
      replace (S n * k) with (k + n * k) by (simpl; lia). reflexivity.
    + intros H. unfold Reader.bind at 1.
      destruct (Nat.lt_ge_cases (length file) k) as [Hk|Hk].
      * by rewrite Herr.
      * destruct (Hok file Hk) as [a ->]. unfold Reader.bind.
        rewrite (proj2 (IH (drop k file))); [reflexivity|].
        rewrite length_drop. simpl in H. lia.
Qed.

(** X1: with the BOB magic and a format of 0 or 1 in the header, [load] ends
    normally exactly when the file has the bytes its two counts announce.  It
    then leaves every byte after them unread and returns as many positions,
    UVs and normals as the vertex count and as many faces as the face count.
    On a shorter file it raises [struct.error]. *)
Theorem load_outcome_by_length (file : list byte) :
  16 <= length file ->
  header_field 0 file = BOB_FILE_ID ->
  header_field 1 file = 0%Z \/ header_field 1 file = 1%Z ->
  (bob_size file <= length file ->
     exists mesh,
       load file = Ok (mesh, drop (bob_size file) file) /\
       length (pd_verts (bob_pydata mesh)) = Z.to_nat (header_field 2 file) /\
       length (bob_uv_list mesh) = Z.to_nat (header_field 2 file) /\
       length (bob_normal_list mesh) = Z.to_nat (header_field 2 file) /\
       length (pd_faces (bob_pydata mesh)) = Z.to_nat (header_field 3 file)) /\
  (length file < bob_size file -> load file = Err StructError).
Proof.
  intros Hlen Hmagic Hfmt. unfold bob_size, header_field in *.
  change (4 * 0) with 0 in *. change (4 * 1) with 4 in *.
  change (4 * 2) with 8 in *. change (4 * 3) with 12 in *.
  change (drop 0 file) with file in Hmagic.
  set (fmt := le_decode (take 4 (drop 4 file))) in *.
  set (vc := Z.to_nat (le_decode (take 4 (drop 8 file)))) in *.
  set (fc3 := Z.to_nat (le_decode (take 4 (drop 12 file)) * 3)) in *.
  assert (Hf : ((fmt =? 0)%Z || (fmt =? 1)%Z) = true).
  { destruct Hfmt as [-> | ->]; reflexivity. }
  pose proof (repeat_fixed_size read_vertex 24 vc (drop 16 file) fixed_size_read_vertex)
    as [Hv1 Hv2].
  pose proof (repeat_fixed_size (read_index fmt) (index_width fmt) fc3
                (drop (16 + vc * 24) file) (fixed_size_read_index fmt)) as [Hi1 Hi2].
  rewrite length_drop in Hv1, Hv2, Hi1, Hi2.
  assert (Hhead : forall k : Z -> Z -> Z -> Reader.t BobMesh,
    (let* magic := readstruct1 fI in
     Reader.assert (magic =? BOB_FILE_ID)%Z BadMagic ;;
     let* meshFormat := readstruct1 fI in
     Reader.assert ((meshFormat =? 0)%Z || (meshFormat =? 1)%Z) UnsupportedFormat ;;
     let* vertexCount := readstruct1 fI in
     let* faceCount := readstruct1 fI in
     k meshFormat vertexCount faceCount)%reader file
    = k fmt (le_decode (take 4 (drop 8 file))) (le_decode (take 4 (drop 12 file)))
        (drop 16 file)).
  { intros k. unfold Reader.bind at 1. rewrite readstruct1_I_at by lia. rewrite Hmagic.
    unfold Reader.bind at 1. cbn [Z.eqb BOB_FILE_ID Pos.eqb Reader.assert Reader.ret].
    unfold Reader.bind at 1. rewrite readstruct1_I_at by (rewrite length_drop; lia).
    fold fmt. unfold Reader.bind at 1. rewrite Hf. cbn [Reader.assert Reader.ret].
    unfold Reader.bind at 1. rewrite drop_drop.
    rewrite readstruct1_I_at by (rewrite length_drop; lia). rewrite drop_drop.
    unfold Reader.bind at 1.
    rewrite readstruct1_I_at by (rewrite length_drop; lia). rewrite drop_drop.
    reflexivity. }
  assert (Hl : load file =
    (let* vs := Reader.repeat vc read_vertex in
     let* indices := Reader.repeat fc3 (read_index fmt) in
     let faces := group_faces (Z.to_nat (le_decode (take 4 (drop 12 file)))) indices in
     Reader.ret {| bob_pydata := {| pd_verts := map (fun v => fst (fst v)) vs;
                                    pd_edges := [];
                                    pd_faces := faces |};
                   bob_uv_list := map (fun v => snd (fst v)) vs;
                   bob_normal_list := map snd vs |})%reader (drop 16 file)).
  { exact (Hhead (fun meshFormat vertexCount faceCount =>
    (let* vs := Reader.repeat (Z.to_nat vertexCount) read_vertex in
     let* indices := Reader.repeat (Z.to_nat (faceCount * 3)) (read_index meshFormat) in
     let faces := group_faces (Z.to_nat faceCount) indices in
     Reader.ret {| bob_pydata := {| pd_verts := map (fun v => fst (fst v)) vs;
                                    pd_edges := [];
                                    pd_faces := faces |};
                   bob_uv_list := map (fun v => snd (fst v)) vs;
                   bob_normal_list := map snd vs |})%reader)). }
  rewrite Hl.
  clear Hhead Hl. split; intros Hsize; unfold Reader.bind at 1.
  - destruct Hv1 as (vs & Ev & Hvs); [lia|].
    rewrite Ev. rewrite drop_drop.
    destruct Hi1 as (idx & Ei & Hidx); [lia|].
    unfold Reader.bind at 1. rewrite Ei. rewrite drop_drop.
    eexists. split.
    + unfold Reader.ret. f_equal. apply f_equal2; [reflexivity|]. f_equal. lia.
    + cbn [bob_pydata pd_verts pd_faces bob_uv_list bob_normal_list].
      rewrite !length_map, group_faces_length. repeat split; exact Hvs.
  - destruct (Nat.lt_ge_cases (length file - 16) (vc * 24)) as [Hs|Hs].
    + by rewrite Hv2.
    + destruct Hv1 as (vs & Ev & Hvs); [lia|]. rewrite Ev. rewrite drop_drop.
      unfold Reader.bind at 1. rewrite Hi2; [reflexivity|lia].
Qed.

Lemma load_outcome_by_length_witness :
  exists mesh,
    load bob_variant1_file = Ok (mesh, drop (bob_size bob_variant1_file) bob_variant1_file) /\
    length (pd_verts (bob_pydata mesh)) = Z.to_nat (header_field 2 bob_variant1_file) /\
    length (bob_uv_list mesh) = Z.to_nat (header_field 2 bob_variant1_file) /\
    length (bob_normal_list mesh) = Z.to_nat (header_field 2 bob_variant1_file) /\
    length (pd_faces (bob_pydata mesh)) = Z.to_nat (header_field 3 bob_variant1_file).
Proof.
  refine (proj1 (load_outcome_by_length bob_variant1_file _ _ _) _).
  - apply Nat.leb_le. vm_compute. reflexivity.
  - vm_compute. reflexivity.
  - right. vm_compute. reflexivity.
  - apply Nat.leb_le. vm_compute. reflexivity.
Defined.

(** X2: with the COB magic in the header, [loadcob] ends normally exactly
    when the file has the twelve header bytes, twelve bytes per announced
    vertex and twelve bytes per announced face.  It then returns as many
    positions and faces as announced and leaves all later bytes unread; on a
    shorter file it raises [struct.error]. *)
Theorem loadcob_outcome_by_length (file : list byte) :
  12 <= length file ->
  header_field 0 file = COB_FILE_ID ->
  (cob_size file <= length file ->
     exists data,
       loadcob file = Ok (data, drop (cob_size file) file) /\
       length (pd_verts data) = Z.to_nat (header_field 1 file) /\
       length (pd_faces data) = Z.to_nat (header_field 2 file)) /\
  (length file < cob_size file -> loadcob file = Err StructError).
Proof.
  intros Hlen Hmagic. unfold cob_size, header_field in *.
  change (4 * 0) with 0 in *. change (4 * 1) with 4 in *. change (4 * 2) with 8 in *.
  change (drop 0 file) with file in Hmagic.
  set (vc := Z.to_nat (le_decode (take 4 (drop 4 file)))) in *.
  set (fc3 := Z.to_nat (le_decode (take 4 (drop 8 file)) * 3)) in *.
  pose proof (repeat_fixed_size read_position 12 vc (drop 12 file) fixed_size_read_position)
    as [Hv1 Hv2].
  pose proof (repeat_fixed_size (readstruct1 fI) 4 fc3
                (drop (12 + vc * 12) file) (fixed_size_readstruct1 fI)) as [Hi1 Hi2].
  rewrite length_drop in Hv1, Hv2, Hi1, Hi2.
  assert (Hhead : forall k : Z -> Z -> Reader.t PyData,
    (let* magic := readstruct1 fI in
     Reader.assert (magic =? COB_FILE_ID)%Z BadMagic ;;
     let* vertexCount := readstruct1 fI in
     let* faceCount := readstruct1 fI in
     k vertexCount faceCount)%reader file
    = k (le_decode (take 4 (drop 4 file))) (le_decode (take 4 (drop 8 file)))
        (drop 12 file)).
  { intros k. unfold Reader.bind at 1. rewrite readstruct1_I_at by lia. rewrite Hmagic.
    unfold Reader.bind at 1. cbn [Z.eqb COB_FILE_ID Pos.eqb Reader.assert Reader.ret].
    unfold Reader.bind at 1. rewrite readstruct1_I_at by (rewrite length_drop; lia).
    unfold Reader.bind at 1.
    rewrite readstruct1_I_at by (rewrite !length_drop; lia). rewrite !drop_drop.
    reflexivity. }
  assert (Hl : loadcob file =
    (let* verts := Reader.repeat vc read_position in
     let* indices := Reader.repeat fc3 (readstruct1 fI) in
     let faces := group_faces (Z.to_nat (le_decode (take 4 (drop 8 file)))) indices in
     Reader.ret {| pd_verts := verts; pd_edges := []; pd_faces := faces |})%reader
      (drop 12 file)).
  { exact (Hhead (fun vertexCount faceCount =>
    (let* verts := Reader.repeat (Z.to_nat vertexCount) read_position in
     let* indices := Reader.repeat (Z.to_nat (faceCount * 3)) (readstruct1 fI) in
     let faces := group_faces (Z.to_nat faceCount) indices in
     Reader.ret {| pd_verts := verts; pd_edges := []; pd_faces := faces |})%reader)). }
  rewrite Hl. clear Hhead Hl. split; intros Hsize; unfold Reader.bind at 1.
  - destruct Hv1 as (vs & Ev & Hvs); [lia|].
    rewrite Ev. rewrite drop_drop.
    destruct Hi1 as (idx & Ei & Hidx); [lia|].
    unfold Reader.bind at 1. rewrite Ei. rewrite drop_drop.
    eexists. split.
    + unfold Reader.ret. f_equal. apply f_equal2; [reflexivity|]. f_equal. lia.
    + cbn [pd_verts pd_faces]. rewrite group_faces_length. split; [exact Hvs|reflexivity].
  - destruct (Nat.lt_ge_cases (length file - 12) (vc * 12)) as [Hs|Hs].
    + by rewrite Hv2.
    + destruct Hv1 as (vs & Ev & Hvs); [lia|]. rewrite Ev. rewrite drop_drop.
      unfold Reader.bind at 1. rewrite Hi2; [reflexivity|lia].
Qed.

Lemma loadcob_outcome_by_length_witness :
  exists data,
    loadcob (cob_triangle_body ++ cob_triangle_normal)
      = Ok (data, drop (cob_size (cob_triangle_body ++ cob_triangle_normal))
                       (cob_triangle_body ++ cob_triangle_normal)) /\
    length (pd_verts data) = Z.to_nat (header_field 1 (cob_triangle_body ++ cob_triangle_normal)) /\
    length (pd_faces data) = Z.to_nat (header_field 2 (cob_triangle_body ++ cob_triangle_normal)).
Proof.
  refine (proj1 (loadcob_outcome_by_length (cob_triangle_body ++ cob_triangle_normal) _ _) _).
  - apply Nat.leb_le. vm_compute. reflexivity.
  - vm_compute. reflexivity.
  - apply Nat.leb_le. vm_compute. reflexivity.
Defined.

(** X3: a file that starts with the BOB magic and carries a format word
    other than 0 and 1 is refused by the format assertion, whatever follows
    the two words. *)
Theorem load_unsupported_format (file : list byte) :
  8 <= length file ->
  header_field 0 file = BOB_FILE_ID ->
  header_field 1 file <> 0%Z ->
  header_field 1 file <> 1%Z ->
  load file = Err UnsupportedFormat.
Proof.
  unfold header_field. change (4 * 0) with 0. change (4 * 1) with 4.
  change (drop 0 file) with file.
  intros Hlen Hmagic H0 H1. unfold load.
  unfold Reader.bind at 1. rewrite readstruct1_I_at by lia. rewrite Hmagic.
  unfold Reader.bind at 1. cbn [Z.eqb BOB_FILE_ID Pos.eqb Reader.assert Reader.ret].
  unfold Reader.bind at 1. rewrite readstruct1_I_at by (rewrite length_drop; lia).
  unfold Reader.bind at 1.
  apply Z.eqb_neq in H0, H1. rewrite H0, H1. reflexivity.
Qed.

Lemma load_unsupported_format_witness :
  load (map byte_of_Z [55; 178; 0; 0;  2; 0; 0; 0]%Z) = Err UnsupportedFormat.
Proof.
  apply load_unsupported_format.
  - apply Nat.leb_le. vm_compute. reflexivity.
  - vm_compute. reflexivity.
  - vm_compute. discriminate.
  - vm_compute. discriminate.
Defined.

(** X4: a file of fewer than four bytes makes both loaders raise
    [struct.error] at the first read; the magic assertion is not reached. *)
Theorem short_file_is_struct_error (file : list byte) :
  length file < 4 ->
  load file = Err StructError /\ loadcob file = Err StructError.
Proof.
  intros H. split; [unfold load|unfold loadcob]; unfold Reader.bind at 1;
    rewrite readstruct1_short by (simpl; lia); reflexivity.
Qed.

Lemma short_file_is_struct_error_witness :
  load (map byte_of_Z [55; 178; 0]%Z) = Err StructError /\
  loadcob (map byte_of_Z [55; 178; 0]%Z) = Err StructError.
Proof.
  apply short_file_is_struct_error. apply Nat.ltb_lt. vm_compute. reflexivity.
Defined.

(** ** Ranges of what is read *)

Lemma le_decode_bound (bs : list byte) :
  (0 <= le_decode bs < 256 ^ Z.of_nat (length bs))%Z.
Proof.
  induction bs as [|b bs IH]; [simpl; lia|].
  cbn [le_decode length]. rewrite Nat2Z.inj_succ, Z.pow_succ_r by lia.
  pose proof (byte_to_Z_range b). lia.
Qed.

Lemma unpack_one_range (c : fmtchar) (bs : list byte) (v : Z) :
  length bs = fmt_size c -> unpack_one c bs = Some v -> within (fmt_lo c) (fmt_hi c) v.
Proof.
  intros Hlen H. pose proof (le_decode_bound bs) as Hb. rewrite Hlen in Hb.
  unfold within.
  destruct c; simpl in *; try discriminate; injection H as <-; unfold to_signed;
    try lia; destruct (_ <? _)%Z eqn:E;
    first [apply Z.ltb_lt in E | apply Z.ltb_ge in E]; lia.
Qed.

Lemma unpack_range (s : list fmtchar) : forall (bs : list byte) (vs : list Z),
  unpack s bs = Some vs ->
  Forall2 (fun c v => within (fmt_lo c) (fmt_hi c) v) (fmt_values s) vs.
Proof.
  induction s as [|c s IH]; intros bs vs H.
  - destruct bs; [|discriminate]. injection H as <-. constructor.
  - cbn [unpack] in H.
    destruct (length bs <? fmt_size c) eqn:El; [discriminate|].
    apply Nat.ltb_ge in El.
    destruct (unpack s (drop (fmt_size c) bs)) as [vs'|] eqn:E; [|discriminate].
    apply IH in E.
    destruct (unpack_one c (take (fmt_size c) bs)) as [v|] eqn:E1.
    + injection H as <-. pose proof E1 as E2.
      apply unpack_one_range in E2; [|rewrite length_take; lia].
      unfold fmt_values. destruct c; try discriminate E1;
        cbn [List.filter is_pad negb]; constructor; assumption.
    + injection H as <-. destruct c; try discriminate E1. exact E.
Qed.

Lemma readstruct1_range (c : fmtchar) (file : list byte) (v : Z) (rest : list byte) :
  is_pad c = false -> readstruct1 c file = Ok (v, rest) -> within (fmt_lo c) (fmt_hi c) v.
Proof.
  intros Hc H. apply bind_Ok in H as (tup & f' & H & H'). injection H' as <- _.
  apply readstruct_Ok in H as (H & _ & _). apply unpack_range in H.
  unfold fmt_values in H. cbn [List.filter] in H. rewrite Hc in H. cbn [negb] in H.
  inversion H as [|c' v' l l' Hv Hl]; subst. exact Hv.
Qed.

Lemma readstruct1_I_Ok (file : list byte) (v : Z) (rest : list byte) :
  readstruct1 fI file = Ok (v, rest) ->
  4 <= length file /\ v = le_decode (take 4 file) /\ rest = drop 4 file.
Proof.
  intros H. pose proof (advances_readstruct1 _ _ _ _ H) as Ha. simpl in Ha.
  assert (Hl : 4 <= length file) by lia.
  rewrite (readstruct1_I_at file Hl) in H. injection H as <- <-. auto.
Qed.

Lemma assert_Ok (b : bool) (e : error) (file : list byte) (u : unit) (rest : list byte) :
  Reader.assert b e file = Ok (u, rest) -> b = true /\ rest = file.
Proof.
  unfold Reader.assert. destruct b; [|discriminate]. intros H. by injection H as _ <-.
Qed.

Lemma repeat_Forall {A} (P : A -> Prop) (body : Reader.t A) :
  (forall file a rest, body file = Ok (a, rest) -> P a) ->
  forall n file xs rest, Reader.repeat n body file = Ok (xs, rest) -> Forall P xs.
Proof.
  intros Hb. induction n as [|n IH]; intros file xs rest H.
  - injection H as <- _. constructor.
  - simpl in H. apply bind_Ok in H as (x & f1 & H1 & H).
    apply bind_Ok in H as (xs' & f2 & H2 & H). injection H as <- _.
    constructor; [eapply Hb, H1|eapply IH, H2].
Qed.

Lemma decoded_word_range (z lo hi : Z) (d : positive) :
  (lo <= z <= hi)%Z ->
  (lo # d <= inject_Z z / inject_Z (Z.pos d) <= hi # d)%Q.
Proof.
  intros [H1 H2]. rewrite <- Qmake_Qdiv. unfold Qle. cbn [Qnum Qden]. nia.
Qed.

Lemma read_vertex_range (file : list byte) p uv n (rest : list byte) :
  read_vertex file = Ok ((p, uv, n), rest) -> uv_in_unit uv /\ normal_decoded n.
Proof.
  intros H. unfold read_vertex in H. apply bind_Ok in H as (tup & f' & H & H').
  apply readstruct_Ok in H as (H & _ & _). apply unpack_range in H.
  unfold fmt_values in H. cbn [List.filter is_pad negb] in H.
  repeat match goal with
         | H : Forall2 _ (_ :: _) _ |- _ => inversion H; subst; clear H
         | H : Forall2 _ [] _ |- _ => inversion H; subst; clear H
         end.
  injection H' as _ <- <- _. cbn [nth] in *.
  unfold uv_in_unit, normal_decoded, within, components in *. cbn [fmt_lo fmt_hi fst snd] in *.
  repeat match goal with
         | H : (_ <= ?z <= 65535)%Z |- _ =>
             apply (decoded_word_range z 0 65535 65535) in H
         | H : (_ <= ?z <= 32767)%Z |- _ =>
             apply (decoded_word_range z (-32768) 32767 32767) in H
         end.
  change (inject_Z 65535) with 65535%Q in *. change (inject_Z 32767) with 32767%Q in *.
  repeat match goal with
         | H : (_ <= ?q / _ <= _)%Q |- _ => generalize dependent q; intros
         end.
  split; [split; lra|]. repeat constructor; lra.
Qed.

Lemma nth_Forall {A} (P : A -> Prop) (l : list A) (d : A) (i : nat) :
  Forall P l -> P d -> P (nth i l d).
Proof.
  intros Hl Hd. revert i. induction Hl as [|x l Hx Hl IH]; intros [|i]; simpl; auto.
Qed.

Lemma group_faces_within (lo hi : Z) (n : nat) (indices : list Z) :
  Forall (within lo hi) indices -> within lo hi 0 ->
  Forall (face_within lo hi) (group_faces n indices).
Proof.
  intros Hi H0. unfold group_faces. apply Forall_map, Forall_forall. intros i _.
  unfold face_within. cbn [fst snd].
  repeat split; apply (nth_Forall (within lo hi)); assumption.
Qed.

Lemma read_index_range (meshFormat : Z) (file : list byte) (v : Z) (rest : list byte) :
  read_index meshFormat file = Ok (v, rest) ->
  within (index_lo meshFormat) (index_hi meshFormat) v.
Proof.
  unfold read_index, index_lo, index_hi.
  destruct (meshFormat =? 0)%Z; apply readstruct1_range; reflexivity.
Qed.

(** X5: in every mesh [load] returns, each UV lies in the unit square and
    each normal component lies between -32768/32767 and 1: the two UV words
    are unsigned and divided by 65535, the three normal words are signed and
    divided by 32767. *)
Theorem load_decoded_ranges (file : list byte) (mesh : BobMesh) (rest : list byte) :
  load file = Ok (mesh, rest) ->
  Forall uv_in_unit (bob_uv_list mesh) /\ Forall normal_decoded (bob_normal_list mesh).
Proof.
  intros H. unfold load in H.
  apply bind_Ok in H as (magic & f1 & _ & H).
  apply bind_Ok in H as ([] & f2 & _ & H).
  apply bind_Ok in H as (meshFormat & f3 & _ & H).
  apply bind_Ok in H as ([] & f4 & _ & H).
  apply bind_Ok in H as (vertexCount & f5 & _ & H).
  apply bind_Ok in H as (faceCount & f6 & _ & H).
  apply bind_Ok in H as (vs & f7 & Hvs & H).
  apply bind_Ok in H as (indices & f8 & _ & H).
  injection H as <- _. cbn [bob_uv_list bob_normal_list].
  apply (repeat_Forall (fun v => uv_in_unit (snd (fst v)) /\ normal_decoded (snd v))) in Hvs.
  - split; apply Forall_map; eapply Forall_impl; try exact Hvs;
      intros [[p uv] n] [Hu Hn]; assumption.
  - intros f [[p uv] n] r Hr. exact (read_vertex_range _ _ _ _ _ Hr).
Qed.

Lemma load_decoded_ranges_witness :
  Forall uv_in_unit [(65535 # 65535, 0 # 65535)] /\
  Forall normal_decoded [(-32768 # 32767, 32767 # 32767, 0 # 32767)].
Proof.
  refine (load_decoded_ranges bob_one_vertex_file
            {| bob_pydata := {| pd_verts := [(0, 0, 0)%Z]; pd_edges := []; pd_faces := [] |};
               bob_uv_list := [(65535 # 65535, 0 # 65535)];
               bob_normal_list := [(-32768 # 32767, 32767 # 32767, 0 # 32767)] |} [] _).
  vm_compute. reflexivity.
Defined.

(** X6: the face indices [load] returns lie between -128 and 127 for a
    file of format 0 and between 0 and 65535 for a file of format 1; those
    [loadcob] returns lie between 0 and 4294967295.  Neither loader compares
    an index with the vertex count. *)
Theorem loaded_index_ranges (file : list byte) :
  (forall mesh rest, load file = Ok (mesh, rest) ->
     Forall (face_within (index_lo (header_field 1 file)) (index_hi (header_field 1 file)))
            (pd_faces (bob_pydata mesh))) /\
  (forall data rest, loadcob file = Ok (data, rest) ->
     Forall (face_within 0 4294967295) (pd_faces data)).
Proof.
  split.
  - intros mesh rest H. unfold load in H.
    apply bind_Ok in H as (magic & f1 & H1 & H).
    apply bind_Ok in H as ([] & f2 & H2 & H).
    apply bind_Ok in H as (meshFormat & f3 & H3 & H).
    apply bind_Ok in H as ([] & f4 & H4 & H).
    apply bind_Ok in H as (vertexCount & f5 & _ & H).
    apply bind_Ok in H as (faceCount & f6 & _ & H).
    apply bind_Ok in H as (vs & f7 & _ & H).
    apply bind_Ok in H as (indices & f8 & Hidx & H).
    injection H as <- _. cbn [bob_pydata pd_faces].
    apply readstruct1_I_Ok in H1 as (_ & _ & ->).
    apply assert_Ok in H2 as [_ ->].
    apply readstruct1_I_Ok in H3 as (_ & -> & _).
    apply assert_Ok in H4 as [Hf _].
    unfold header_field. change (4 * 1) with 4.
    apply group_faces_within.
    + eapply repeat_Forall; [|exact Hidx]. intros f a r. apply read_index_range.
    + unfold within, index_lo, index_hi. destruct (_ =? 0)%Z; lia.
  - intros data rest H. unfold loadcob in H.
    apply bind_Ok in H as (magic & f1 & _ & H).
    apply bind_Ok in H as ([] & f2 & _ & H).
    apply bind_Ok in H as (vertexCount & f5 & _ & H).
    apply bind_Ok in H as (faceCount & f6 & _ & H).
    apply bind_Ok in H as (vs & f7 & _ & H).
    apply bind_Ok in H as (indices & f8 & Hidx & H).
    injection H as <- _. cbn [pd_faces].
    apply group_faces_within; [|unfold within; lia].
    eapply repeat_Forall; [|exact Hidx]. intros f a r.
    apply (readstruct1_range fI). reflexivity.
Qed.

(** ** Quantisation, there and back *)

Local Open Scope Q_scope.

Lemma clamp_inside (v lo hi : Q) : lo <= v <= hi -> clamp v lo hi = v.
Proof.
  intros [H1 H2]. unfold clamp, py_max, py_min.
  apply Qltb_ge in H2. rewrite H2. apply Qltb_ge in H1. rewrite H1. reflexivity.
Qed.

(** X7: [clamp] returns its argument when it lies between the bounds, the
    nearer bound when it lies outside, and the lower bound whenever the
    bounds are given in the wrong order; clamping twice is clamping once. *)
Theorem clamp_cases (v lo hi : Q) :
  (lo <= v <= hi -> clamp v lo hi = v) /\
  (v < lo -> lo <= hi -> clamp v lo hi = lo) /\
  (hi < v -> lo <= hi -> clamp v lo hi = hi) /\
  (hi < lo -> clamp v lo hi = lo) /\
  clamp (clamp v lo hi) lo hi = clamp v lo hi.
Proof.
  assert (Hcases : (v < lo -> lo <= hi -> clamp v lo hi = lo) /\
                   (hi < v -> lo <= hi -> clamp v lo hi = hi) /\
                   (hi < lo -> clamp v lo hi = lo)).
  { unfold clamp, py_max, py_min. repeat split.
    - intros H1 H2. destruct (Qltb hi v) eqn:E.
      + apply Qltb_lt in E. lra.
      + apply Qltb_lt in H1. by rewrite H1.
    - intros H1 H2. apply Qltb_lt in H1. rewrite H1.
      apply Qltb_ge in H2. by rewrite H2.
    - intros H. destruct (Qltb hi v) eqn:E.
      + apply Qltb_lt in H. by rewrite H.
      + apply Qltb_ge in E. assert (H' : v < lo) by lra.
        apply Qltb_lt in H'. by rewrite H'. }
  destruct Hcases as (Hlo & Hhi & Hbad).
  split; [apply clamp_inside|]. do 3 (split; [assumption|]).
  destruct (Qlt_le_dec hi lo) as [H|H].
  - rewrite (Hbad H). unfold clamp, py_max, py_min.
    pose proof H as H'. apply Qltb_lt in H'. rewrite H'.
    assert (H2 : Qltb hi lo = true) by exact H'. rewrite H2. reflexivity.
  - apply clamp_inside. apply clamp_range. exact H.
Qed.

Lemma decode_word (z : Z) (d : positive) (x : Q) :
  inject_Z z <= x * inject_Z (Z.pos d) -> x * inject_Z (Z.pos d) < inject_Z z + 1 ->
  x - (1 # d) < inject_Z z / inject_Z (Z.pos d) /\ inject_Z z / inject_Z (Z.pos d) <= x.
Proof.
  intros H1 H2.
  assert (Hd : 0 < inject_Z (Z.pos d)) by reflexivity.
  assert (E1 : (1 # d) * inject_Z (Z.pos d) == 1).
  { unfold Qeq, Qmult, inject_Z. cbn [Qnum Qden]. lia. }
  assert (E : (x - (1 # d)) * inject_Z (Z.pos d) == x * inject_Z (Z.pos d) - 1).
  { transitivity (x * inject_Z (Z.pos d) - (1 # d) * inject_Z (Z.pos d)); [ring|].
    rewrite E1. reflexivity. }
  split.
  - apply Qlt_shift_div_l; [exact Hd|]. rewrite E. lra.
  - apply Qle_shift_div_r; [exact Hd|exact H1].
Qed.

(** X8: a UV that is exported and imported again comes back as its clamped
    value moved by less than 1/65535, up to the rounding of 1 - V: U is
    never raised; V, flipped before the truncation and flipped back by the
    importer, is raised by less than 1/65535 + 2^-51 and lowered by at most
    2^-51, as V = 2^-60, which comes back as 0.  The result lies in the unit
    square. *)
Theorem uv_round_trip (uv : Q * Q) :
  let c := (clamp (fst uv) 0 1, clamp (snd uv) 0 1) in
  let uv' := import_uv (decode_uv (encode_uv uv)) in
  (fst c - (1 # 65535) < fst uv' /\ fst uv' <= fst c) /\
  (snd c - (1 # 2251799813685248) <= snd uv' /\
   snd uv' < snd c + (1 # 65535) + (1 # 2251799813685248)) /\
  uv_in_unit uv' /\
  snd (import_uv (decode_uv (encode_uv (0, 1 # 1152921504606846976)))) == 0.
Proof.
  intros c uv'. subst c uv'. split; [|split; [|split; [|by vm_compute]]];
    unfold import_uv, decode_uv; cbn [fst snd];
    destruct (encode_uv_range uv) as [[Hu0 Hu3] [Hv0 Hv3]];
    unfold encode_uv in *; cbn [fst snd] in *;
    pose proof (clamp_range (fst uv) 0 1 ltac:(lra)) as Hu;
    pose proof (clamp_range (snd uv) 0 1 ltac:(lra)) as Hv;
    destruct (flipped_v_rounded _ Hv) as (Hy0 & Hy1 & Hy2);
    set (cu := clamp (fst uv) 0 1) in *; set (cv := clamp (snd uv) 0 1) in *;
    set (y := binary64 _) in *;
    destruct (proj1 (py_int_trunc (cu * 65535)) ltac:(lra)) as [Hu1 Hu2];
    destruct (proj1 (py_int_trunc y) Hy0) as [Hv1 Hv2];
    rewrite Zle_Qle in Hu0, Hu3, Hv0, Hv3;
    change (inject_Z 0) with 0 in *; change (inject_Z 65535) with 65535 in *;
    remember (inject_Z (py_int (cu * 65535))) as za eqn:Eza;
    remember (inject_Z (py_int y)) as zb eqn:Ezb;
    assert (Ea : za / 65535 * 65535 == za) by (field; discriminate);
    assert (Eb : zb / 65535 * 65535 == zb) by (field; discriminate);
    set (a := za / 65535) in *; set (b := zb / 65535) in *;
    clearbody a b; clear Eza Ezb;
    unfold uv_in_unit; cbn [fst snd]; repeat split; lra.
Qed.

Lemma decode_word_neg (z : Z) (d : positive) (x : Q) :
  inject_Z z - 1 < x * inject_Z (Z.pos d) -> x * inject_Z (Z.pos d) <= inject_Z z ->
  x <= inject_Z z / inject_Z (Z.pos d) /\ inject_Z z / inject_Z (Z.pos d) < x + (1 # d).
Proof.
  intros H1 H2.
  assert (Hd : 0 < inject_Z (Z.pos d)) by reflexivity.
  assert (E1 : (1 # d) * inject_Z (Z.pos d) == 1).
  { unfold Qeq, Qmult, inject_Z. cbn [Qnum Qden]. lia. }
  assert (E : (x + (1 # d)) * inject_Z (Z.pos d) == x * inject_Z (Z.pos d) + 1).
  { transitivity (x * inject_Z (Z.pos d) + (1 # d) * inject_Z (Z.pos d)); [ring|].
    rewrite E1. reflexivity. }
  split.
  - apply Qle_shift_div_l; [exact Hd|exact H2].
  - apply Qlt_shift_div_r; [exact Hd|]. rewrite E. lra.
Qed.

Lemma normal_word_round_trip (c : Q) :
  let cc := clamp c (-1) 1 in
  let c' := decode_normal (py_int (cc * 32767)) in
  (0 <= cc -> cc - (1 # 32767) < c' /\ c' <= cc /\ 0 <= c') /\
  (cc <= 0 -> cc <= c' /\ c' < cc + (1 # 32767) /\ c' <= 0).
Proof.
  intros cc c'. subst c'. unfold decode_normal.
  pose proof (clamp_range c (-1) 1 ltac:(lra)) as Hc. fold cc in Hc.
  change 32767 with (inject_Z 32767).
  split; intros Hs.
  - destruct (proj1 (py_int_trunc (cc * inject_Z 32767))) as [H1 H2].
    { change (inject_Z 32767) with 32767. lra. }
    pose proof (decode_word _ 32767 cc H1 H2) as [Ha Hb].
    repeat split; try assumption.
    apply Qle_shift_div_l; [reflexivity|].
    assert (H0 : (0 <= py_int (cc * inject_Z 32767))%Z).
    { apply (py_int_bounds _ 0 32767); [lia|].
      change (inject_Z 32767) with 32767. unfold inject_Z. lra. }
    rewrite Zle_Qle in H0. change (inject_Z 0) with 0 in H0.
    remember (inject_Z (py_int (cc * inject_Z 32767))) as q. lra.
  - destruct (proj2 (py_int_trunc (cc * inject_Z 32767))) as [H1 H2].
    { change (inject_Z 32767) with 32767. lra. }
    pose proof (decode_word_neg _ 32767 cc H1 H2) as [Ha Hb].
    repeat split; try assumption.
    apply Qle_shift_div_r; [reflexivity|].
    assert (H0 : (py_int (cc * inject_Z 32767) <= 0)%Z).
    { apply (py_int_bounds _ (-32767) 0); [lia|].
      change (inject_Z 32767) with 32767. unfold inject_Z. lra. }
    rewrite Zle_Qle in H0. change (inject_Z 0) with 0 in H0.
    remember (inject_Z (py_int (cc * inject_Z 32767))) as q. lra.
Qed.

(** X9: a normal component that is exported and read back is its clamped
    value moved towards zero by less than 1/32767; it never changes sign and
    never leaves the interval from -1 to 1, so the word -32768 is never
    written. *)
Theorem normal_round_trip (n : Q * Q * Q) :
  Forall2 (fun c z =>
             let cc := clamp c (-1) 1 in
             let c' := decode_normal z in
             (0 <= cc -> cc - (1 # 32767) < c' /\ c' <= cc /\ 0 <= c') /\
             (cc <= 0 -> cc <= c' /\ c' < cc + (1 # 32767) /\ c' <= 0))
          (components n) (encode_normal n) /\
  Forall (fun z => (-32767 <= z <= 32767)%Z) (encode_normal n).
Proof.
  split; [|apply encode_normal_range].
  destruct n as [[a b] c]. unfold encode_normal. cbn [components fst snd map].
  do 3 (constructor 2; [apply normal_word_round_trip|]). constructor 1.
Qed.

(** ** More on welding *)

Local Open Scope nat_scope.

Section MoreWelding.

Context {host : Host}.

(** X10: [Verts.get] either returns a vertex already stored under the
    requested source index that the host finds similar to the requested
    attributes, and changes nothing, or, when the host finds none, appends
    the vertex made of these attributes and returns it.  Either way the
    returned vertex is stored under the requested source index afterwards;
    and when the host finds the requested attributes similar to themselves,
    asking again with the same arguments returns the same vertex and changes
    nothing. *)
Theorem get_similar_and_stable cls c n bi u cls' v :
  get cls c n bi u = (cls', v) ->
  let inst := {| coords := c; normal := n; uv := u; index := length (_verts cls) |} in
  ((cls' = cls /\ In v (_by_blender_index cls !!! bi) /\ simmilar inst v = true) \/
   (v = inst /\ _verts cls' = _verts cls ++ [inst] /\
    Forall (fun other => simmilar inst other = false) (_by_blender_index cls !!! bi))) /\
  In v (_by_blender_index cls' !!! bi) /\
  (simmilar inst inst = true -> get cls' c n bi u = (cls', v)).
Proof.
  intros Hget inst. split; [|split].
  - unfold get in Hget. fold inst in Hget.
    destruct (List.find _ (_by_blender_index cls !!! bi)) as [other|] eqn:E.
    + injection Hget as <- <-. left. apply find_some in E as [E1 E2]. by repeat split.
    + injection Hget as <- <-. right. split; [reflexivity|]. split; [reflexivity|].
      apply Forall_forall. intros other Hin. apply list_elem_of_In in Hin.
      exact (find_none _ _ E other Hin).
  - eapply get_In, Hget.
  - intros Hself.
    pose proof (get_post cls c n bi u cls' v (length (_verts cls')) Hself Hget) as Hfind.
    unfold get. rewrite Hfind. reflexivity.
Qed.

Lemma Verts_initial_indexed : Verts_indexed Verts_initial.
Proof.
  split.
  - intros i v H. cbn in H. rewrite lookup_nil in H. discriminate.
  - intros k v H. cbn in H. rewrite lookup_total_empty in H. destruct H.
Qed.

Lemma get_indexed cls c n bi u cls' v :
  Verts_indexed cls -> get cls c n bi u = (cls', v) -> Verts_indexed cls'.
Proof.
  intros [Hpos Hin]. unfold get. destruct (List.find _ _).
  - intros [= <- _]. split; assumption.
  - intros [= <- _]. split; cbn.
    + intros i x Hx. apply lookup_app_Some in Hx as [Hx|[Hlen Hx]]; [by apply Hpos|].
      apply list_lookup_singleton_Some in Hx as [Hi <-]. cbn. lia.
    + intros k x Hx. apply in_or_app. destruct (decide (bi = k)) as [->|Hne].
      * rewrite lookup_total_insert_eq in Hx. apply in_app_or in Hx as [Hx|Hx]; eauto.
      * rewrite lookup_total_insert_ne in Hx by exact Hne. eauto.
Qed.

Lemma face_loop_indexed uv_layer face : forall cls cls' vs,
  Verts_indexed cls -> face_loop cls uv_layer face = (cls', vs) -> Verts_indexed cls'.
Proof.
  induction face as [|l face IH]; intros cls cls' vs Hwf H.
  - by injection H as <- _.
  - rewrite face_loop_cons in H.
    destruct (get _ _ _ _ _) as [cls1 v] eqn:E1.
    destruct (face_loop cls1 _ _) as [cls2 vs'] eqn:E2.
    injection H as <- _. eapply IH; [|exact E2]. eapply get_indexed; eauto.
Qed.

Lemma indexed_lookup cls k v :
  Verts_indexed cls -> In v (_by_blender_index cls !!! k) -> _verts cls !! index v = Some v.
Proof.
  intros [Hpos Hin] H. apply Hin in H. apply list_elem_of_In in H.
  apply list_elem_of_lookup in H as [i Hi]. by rewrite (Hpos _ _ Hi).
Qed.

(** X11: after the welding loop of an export, the index of the vertex
    assigned to a face corner is the position of that very vertex in the
    vertex list that is written to the file, and the vertex is stored under
    the source index of the corner. *)
Theorem face_index_points_at_its_vertex
    (cls cls' : Verts) (uv_layer : bool) (bmfaces : list (list BMLoop))
    (faces : list (list Vert)) (i : nat) (l : BMLoop) :
  Verts_indexed cls ->
  faces_loop cls uv_layer bmfaces = (cls', faces) ->
  concat bmfaces !! i = Some l ->
  exists v,
    concat faces !! i = Some v /\
    _verts cls' !! index v = Some v /\
    In v (_by_blender_index cls' !!! bm_index (loop_vert l)).
Proof.
  intros Hidx H Hl. apply faces_loop_concat in H as [H _].
  destruct (face_loop_assigned _ _ _ _ _ H i l Hl) as (v & Hv & Hin & _).
  exists v. split; [exact Hv|]. split; [|exact Hin].
  eapply indexed_lookup; [|exact Hin]. eapply face_loop_indexed; eauto.
Qed.

Lemma get_length cls c n bi u cls' v :
  get cls c n bi u = (cls', v) ->
  length (_verts cls) <= length (_verts cls') <= S (length (_verts cls)).
Proof.
  unfold get. destruct (List.find _ _); intros [= <- _]; cbn; [lia|].
  rewrite length_app. simpl. lia.
Qed.

Lemma face_loop_count uv_layer face : forall cls cls' vs,
  face_loop cls uv_layer face = (cls', vs) ->
  length (_verts cls) <= length (_verts cls') <= length (_verts cls) + length face.
Proof.
  induction face as [|l face IH]; intros cls cls' vs H.
  - injection H as <- _. simpl. lia.
  - rewrite face_loop_cons in H.
    destruct (get _ _ _ _ _) as [cls1 v] eqn:E1.
    destruct (face_loop cls1 _ _) as [cls2 vs'] eqn:E2.
    injection H as <- _. apply get_length in E1. apply IH in E2. simpl. lia.
Qed.

(** X12: the welding loop of an export produces one face per polygon of the
    mesh, each with as many vertices as the polygon has corners, and adds at
    most one vertex per corner to the vertices the class held before; it
    never removes one. *)
Theorem welding_counts
    (cls cls' : Verts) (uv_layer : bool) (bmfaces : list (list BMLoop))
    (faces : list (list Vert)) :
  faces_loop cls uv_layer bmfaces = (cls', faces) ->
  length faces = length bmfaces /\
  Forall2 (fun face bmface => length face = length bmface) faces bmfaces /\
  length (_verts cls) <= length (_verts cls') /\
  length (_verts cls') <= length (_verts cls) + length (concat bmfaces).
Proof.
  intros H. apply faces_loop_concat in H as [H HF].
  apply face_loop_count in H.
  split; [exact (Forall2_length _ _ _ HF)|]. split; [exact HF|]. lia.
Qed.

End MoreWelding.

Lemma get_similar_and_stable_witness :
  In (snd (get Verts_initial (0, 0, 0)%Q up 0 None))
     (_by_blender_index (fst (get Verts_initial (0, 0, 0)%Q up 0 None)) !!! 0) /\
  get (fst (get Verts_initial (0, 0, 0)%Q up 0 None)) (0, 0, 0)%Q up 0 None
    = get Verts_initial (0, 0, 0)%Q up 0 None.
Proof.
  pose proof (get_similar_and_stable Verts_initial (0, 0, 0)%Q up 0 None
                (fst (get Verts_initial (0, 0, 0)%Q up 0 None))
                (snd (get Verts_initial (0, 0, 0)%Q up 0 None))
                (surjective_pairing _)) as (_ & Hin & H).
  split; [exact Hin|].
  rewrite H by apply simmilar_refl. symmetry. apply surjective_pairing.
Defined.

Lemma face_index_points_at_its_vertex_witness :
  exists v,
    concat (snd (weld Verts_initial square false)) !! 4 = Some v /\
    _verts (fst (weld Verts_initial square false)) !! index v = Some v /\
    In v (_by_blender_index (fst (weld Verts_initial square false)) !!! 2).
Proof.
  refine (face_index_points_at_its_vertex Verts_initial
            (fst (weld Verts_initial square false)) true (bm_faces square)
            (snd (weld Verts_initial square false)) 4 (bm_corner 1 1 0 2 1 1) _ _ _).
  - apply Verts_initial_indexed.
  - apply surjective_pairing.
  - reflexivity.
Defined.

Lemma welding_counts_witness :
  length (snd (weld Verts_initial square false)) = 2 /\
  Forall2 (fun face bmface => length face = length bmface)
          (snd (weld Verts_initial square false)) (bm_faces square) /\
  0 <= length (_verts (fst (weld Verts_initial square false))) /\
  length (_verts (fst (weld Verts_initial square false))) <= 0 + 6.
Proof.
  refine (welding_counts Verts_initial (fst (weld Verts_initial square false)) true
            (bm_faces square) (snd (weld Verts_initial square false)) _).
  apply surjective_pairing.
Defined.

(** ** What a failed export leaves behind *)

Section Appending.

Context {host : Host} {parts : Components}.

Variable pack_f : Q -> list byte.
Variable bm_triangulate : Mesh -> Mesh.

Lemma appends_ret {A} (a : A) : appends (Writer.ret a).
Proof. intros file. exists []. by rewrite app_nil_r. Qed.

Lemma appends_bind {A B} (m : Writer.t A) (k : A -> Writer.t B) :
  appends m -> (forall a, appends (k a)) -> appends (Writer.bind m k).
Proof.
  intros Hm Hk file. unfold Writer.bind. destruct (Hm file) as [o1 H1].
  destruct (m file) as [file' [a|e]]; cbn [fst] in *; subst file'.
  - destruct (Hk a (file ++ o1)) as [o2 H2]. exists (o1 ++ o2). by rewrite H2, app_assoc.
  - by exists o1.
Qed.

Lemma appends_assert b e : appends (Writer.assert b e).
Proof. destruct b; [apply appends_ret|]. intros file. exists []. by rewrite app_nil_r. Qed.

Lemma appends_writestruct s args : appends (writestruct pack_f s args).
Proof.
  intros file. unfold writestruct. destruct (pack pack_f s args) as [bs|].
  - by exists bs.
  - exists []. by rewrite app_nil_r.
Qed.

Lemma appends_for_each {A} (xs : list A) (body : A -> Writer.t unit) :
  (forall x, appends (body x)) -> appends (Writer.for_each xs body).
Proof.
  intros Hb. induction xs as [|x xs IH]; [apply appends_ret|].
  apply appends_bind; [apply Hb|]. intros _. exact IH.
Qed.

Lemma appends_write_vert v : appends (write_vert pack_f v).
Proof.
  unfold write_vert.
  repeat (apply appends_bind; [|intros _]);
    try apply appends_writestruct.
  destruct (uv v); apply appends_writestruct.
Qed.

Lemma appends_write_face face : appends (write_face pack_f face).
Proof.
  unfold write_face. apply appends_bind; [apply appends_assert|]. intros _.
  apply appends_for_each. intros x. apply appends_writestruct.
Qed.

Lemma appends_write_tessface face : appends (write_tessface pack_f face).
Proof.
  unfold write_tessface. apply appends_bind; [apply appends_assert|]. intros _.
  apply appends_for_each. intros x. apply appends_writestruct.
Qed.

(** X13: whatever the mesh and whatever the outcome, the file [save] leaves
    starts with the magic number 45623 followed by the format word 1, and
    the file [savecob] leaves starts with the magic number 13466.  [save]
    never writes a file of format 0. *)
Theorem export_always_writes_header (cls : Verts) (mesh : Mesh) (triangulate : bool) :
  (exists rest,
     fst (snd (save pack_f bm_triangulate cls mesh triangulate))
       = le_encode 4 BOB_FILE_ID ++ le_encode 4 1 ++ rest) /\
  (exists rest,
     fst (savecob pack_f bm_triangulate mesh triangulate) = le_encode 4 COB_FILE_ID ++ rest).
Proof.
  split.
  - unfold save.
    destruct (faces_loop _ _ _) as [verts faces]. cbn [snd].
    unfold Writer.bind at 1. rewrite writestruct_I by (unfold BOB_FILE_ID; lia).
    unfold Writer.bind at 1. rewrite writestruct_I by lia.
    cbn [app].
    match goal with
    | |- exists rest, fst (?m ?file) = _ =>
        assert (Hm : appends m); [|destruct (Hm file) as [out ->]; exists out]
    end.
    + repeat (apply appends_bind; [|intros _]);
        first [ apply appends_writestruct
              | apply appends_for_each; intros x;
                first [apply appends_write_vert | apply appends_write_face] ].
    + by rewrite <- app_assoc.
  - unfold savecob.
    unfold Writer.bind at 1. rewrite writestruct_I by (unfold COB_FILE_ID; lia).
    cbn [app].
    match goal with
    | |- exists rest, fst (?m ?file) = _ =>
        assert (Hm : appends m); [|destruct (Hm file) as [out ->]; by exists out]
    end.
    repeat (apply appends_bind; [|intros _]);
      first [ apply appends_writestruct
            | apply appends_for_each; intros x;
              first [apply appends_write_tessface | apply appends_writestruct] ].
Qed.

End Appending.

(** ** Writing and reading back *)

Lemma unpack_cons (c : fmtchar) (s : list fmtchar) (b1 bs : list byte) :
  length b1 = fmt_size c ->
  unpack (c :: s) (b1 ++ bs) =
    match unpack s bs with
    | None => None
    | Some vs =>
        match unpack_one c b1 with
        | Some v => Some (v :: vs)
        | None => Some vs
        end
    end.
Proof.
  intros H. cbn [unpack].
  replace (length (b1 ++ bs) <? fmt_size c) with false
    by (symmetry; apply Nat.ltb_ge; rewrite length_app; lia).
  rewrite <- H. by rewrite drop_app_length, take_app_length.
Qed.

Lemma to_signed_mod (bits z : Z) :
  (0 < bits)%Z -> (- 2 ^ (bits - 1) <= z < 2 ^ (bits - 1))%Z ->
  to_signed bits (z mod 2 ^ bits) = z.
Proof.
  intros Hb Hz. unfold to_signed.
  assert (E : (2 ^ bits = 2 * 2 ^ (bits - 1))%Z).
  { rewrite <- Z.pow_succ_r by lia. f_equal. lia. }
  assert (Hp : (0 < 2 ^ (bits - 1))%Z) by (apply Z.pow_pos_nonneg; lia).
  destruct (Z_lt_le_dec z 0) as [Hn|Hn].
  - assert (Hm : (z mod 2 ^ bits = z + 2 ^ bits)%Z).
    { symmetry. apply (Z.mod_unique _ _ (-1)); lia. }
    rewrite Hm. destruct (_ <? _)%Z eqn:El; [apply Z.ltb_lt in El; lia|lia].
  - rewrite Z.mod_small by lia.
    destruct (_ <? _)%Z eqn:El; [reflexivity|apply Z.ltb_ge in El; lia].
Qed.

Section ReadBack.

Context {host : Host} {parts : Components}.

Variable pack_f : Q -> list byte.
Variable bm_triangulate : Mesh -> Mesh.

(** [struct.pack('f', x)] returns four bytes *)
Hypothesis pack_f_length : forall q, length (pack_f q) = 4.

Lemma pack_one_unpack_one (c : fmtchar) (v : pyval) (b : list byte) :
  pack_one pack_f c v = Some b ->
  length b = fmt_size c /\ unpack_one c b = Some (stored pack_f c v).
Proof.
  unfold pack_one, in_range.
  destruct c, v as [z|q]; try discriminate;
    try (destruct (_ && _) eqn:E; [|discriminate];
         apply andb_prop in E as [E1 E2]; apply Z.leb_le in E1, E2);
    intros H; apply (inj Some) in H; subst b; cbn [fmt_size unpack_one stored];
    rewrite ?le_encode_length, ?pack_f_length; split; try reflexivity; f_equal.
  - apply le_decode_encode. change (256 ^ Z.of_nat 4)%Z with 4294967296%Z. lia.
  - apply le_decode_encode. change (256 ^ Z.of_nat 2)%Z with 65536%Z. lia.
  - rewrite le_decode_encode
      by (change (256 ^ Z.of_nat 2)%Z with 65536%Z; apply Z.mod_pos_bound; lia).
    apply (to_signed_mod 16); [lia|]. change (2 ^ (16 - 1))%Z with 32768%Z. lia.
  - rewrite le_decode_encode
      by (change (256 ^ Z.of_nat 1)%Z with 256%Z; apply Z.mod_pos_bound; lia).
    apply (to_signed_mod 8); [lia|]. change (2 ^ (8 - 1))%Z with 128%Z. lia.
Qed.

Lemma pack_unpack (s : list fmtchar) : forall (args : list pyval) (bs : list byte),
  pack pack_f s args = Some bs ->
  length bs = calcsize s /\ unpack s bs = Some (stored_values pack_f s args).
Proof.
  induction s as [|c s IH]; intros args bs H.
  - destruct args; [|discriminate]. by injection H as <-.
  - assert (Hpad : c = fx ->
      length bs = calcsize (c :: s) /\ unpack (c :: s) bs = Some (stored_values pack_f (c :: s) args)).
    { intros ->. cbn [pack] in H.
      destruct (pack pack_f s args) as [bs'|] eqn:E; [|discriminate]. injection H as <-.
      apply IH in E as [El Eu]. split; [simpl; lia|].
      change (Byte.x00 :: bs') with ([Byte.x00] ++ bs').
      rewrite unpack_cons by reflexivity. rewrite Eu. reflexivity. }
    assert (Hval : c <> fx ->
      length bs = calcsize (c :: s) /\ unpack (c :: s) bs = Some (stored_values pack_f (c :: s) args)).
    { intros Hc.
      assert (H' : match args with
                   | [] => None
                   | v :: args' =>
                       match pack_one pack_f c v, pack pack_f s args' with
                       | Some b1, Some b2 => Some (b1 ++ b2)
                       | _, _ => None
                       end
                   end = Some bs) by (destruct c; try exact H; contradiction).
      destruct args as [|v args']; [discriminate|].
      destruct (pack_one pack_f c v) as [b1|] eqn:E1; [|discriminate].
      destruct (pack pack_f s args') as [b2|] eqn:E2; [|discriminate].
      injection H' as <-. apply pack_one_unpack_one in E1 as [L1 U1].
      apply IH in E2 as [L2 U2]. split.
      - rewrite length_app. simpl. lia.
      - rewrite unpack_cons by exact L1. rewrite U2, U1.
        destruct c; try reflexivity; contradiction. }
    destruct c; first [apply Hpad; reflexivity | apply Hval; discriminate].
Qed.

(** X14: whatever [writestruct] has written with success is read back by
    [readstruct] under the same format string: the integers unchanged, each
    float as the bit pattern of its four bytes; the pad bytes are skipped and
    the bytes that follow are left unread. *)
Theorem writestruct_then_readstruct
    (s : list fmtchar) (args : list pyval) (file file' rest : list byte) :
  writestruct pack_f s args file = (file', Ok tt) ->
  exists bs,
    file' = file ++ bs /\ length bs = calcsize s /\
    readstruct s (bs ++ rest) = Ok (stored_values pack_f s args, rest).
Proof.
  unfold writestruct. destruct (pack pack_f s args) as [bs|] eqn:E; [|discriminate].
  intros [= <-]. exists bs. apply pack_unpack in E as [L U].
  split; [reflexivity|]. split; [exact L|].
  unfold readstruct. rewrite <- L. by rewrite take_app_length, drop_app_length, U.
Qed.

Lemma readstruct1_bytes (c : fmtchar) (b rest : list byte) (v : Z) :
  length b = fmt_size c -> unpack_one c b = Some v ->
  readstruct1 c (b ++ rest) = Ok (v, rest).
Proof.
  intros L U. unfold readstruct1, Reader.bind, readstruct.
  replace (calcsize [c]) with (length b) by (simpl; lia).
  rewrite take_app_length, drop_app_length.
  rewrite <- (app_nil_r b) at 1. rewrite unpack_cons by exact L.
  cbn [unpack]. rewrite U. reflexivity.
Qed.

Lemma readstruct1_I_encoded (z : Z) (rest : list byte) :
  (0 <= z < 4294967296)%Z -> readstruct1 fI (le_encode 4 z ++ rest) = Ok (z, rest).
Proof.
  intros H. apply readstruct1_bytes; [apply le_encode_length|].
  cbn [unpack_one]. f_equal. apply le_decode_encode.
  change (256 ^ Z.of_nat 4)%Z with 4294967296%Z. lia.
Qed.

Lemma repeat_decode {A B} (body : Reader.t B) (enc : A -> list byte) (dec : A -> B)
    (xs : list A) :
  (forall x rest, In x xs -> body (enc x ++ rest) = Ok (dec x, rest)) ->
  forall rest,
    Reader.repeat (length xs) body (flat_map enc xs ++ rest) = Ok (map dec xs, rest).
Proof.
  induction xs as [|x xs IH]; intros Hb rest; [reflexivity|].
  cbn [length Reader.repeat flat_map map]. unfold Reader.bind at 1.
  rewrite <- app_assoc, Hb by (left; reflexivity).
  unfold Reader.bind. rewrite IH by (intros y r Hy; apply Hb; right; exact Hy).
  reflexivity.
Qed.

Lemma group_faces_cons (n : nat) (a b c : Z) (l : list Z) :
  group_faces (S n) (a :: b :: c :: l) = (a, b, c) :: group_faces n l.
Proof.
  unfold group_faces. cbn [seq map]. f_equal.
  rewrite <- seq_shift, map_map. apply map_ext. intros i.
  replace (S i * 3) with (S (S (S (i * 3)))) by lia.
  reflexivity.
Qed.

Lemma group_faces_triangles (faces : list (list Vert)) :
  Forall is_triangle faces ->
  group_faces (length faces) (map (fun v => Z.of_nat (index v)) (concat faces))
    = map face_indices faces.
Proof.
  induction 1 as [|face faces Hf _ IH]; [reflexivity|].
  destruct face as [|v0 [|v1 [|v2 [|v3 face]]]]; try discriminate Hf.
  cbn [length concat app map]. rewrite group_faces_cons, IH. reflexivity.
Qed.

Lemma unpack_vert_bytes (v : Vert) :
  unpack [ff; ff; ff; fH; fH; fh; fh; fh; fx; fx] (vert_bytes pack_f v)
    = Some [le_decode (pack_f (fst (fst (xyz (coords v)))));
            le_decode (pack_f (snd (fst (xyz (coords v)))));
            le_decode (pack_f (snd (xyz (coords v))));
            match uv v with Some p => fst (encode_uv (xy p)) | None => 0%Z end;
            match uv v with Some p => snd (encode_uv (xy p)) | None => 0%Z end;
            nth 0 (encode_normal (xyz (normal v))) 0%Z;
            nth 1 (encode_normal (xyz (normal v))) 0%Z;
            nth 2 (encode_normal (xyz (normal v))) 0%Z].
Proof.
  unfold vert_bytes, vec3_bytes.
  pose proof (encode_normal_range (xyz (normal v))) as Hn.
  destruct (xyz (coords v)) as [[x y] z]. destruct (xyz (normal v)) as [[a b] c].
  unfold encode_normal, components in *. cbn [flat_map map fst snd nth] in *.
  inversion Hn as [|? ? Ha Hn1]; subst. inversion Hn1 as [|? ? Hb Hn2]; subst.
  inversion Hn2 as [|? ? Hc _]; subst. clear Hn Hn1 Hn2.
  set (na := py_int (clamp a (-1) 1 * 32767)) in *.
  set (nb := py_int (clamp b (-1) 1 * 32767)) in *.
  set (nc := py_int (clamp c (-1) 1 * 32767)) in *.
  assert (Hword : forall w, (0 <= w <= 65535)%Z -> le_decode (le_encode 2 w) = w).
  { intros w Hw. apply le_decode_encode. change (256 ^ Z.of_nat 2)%Z with 65536%Z. lia. }
  assert (Hsword : forall w, (-32767 <= w <= 32767)%Z ->
            to_signed 16 (le_decode (le_encode 2 (w mod 65536))) = w).
  { intros w Hw. rewrite Hword by (pose proof (Z.mod_pos_bound w 65536); lia).
    apply (to_signed_mod 16); [lia|]. change (2 ^ (16 - 1))%Z with 32768%Z. lia. }
  assert (Huv : exists wu wv,
            match uv v with
            | Some uv0 =>
                le_encode 2 (fst (encode_uv (xy uv0))) ++ le_encode 2 (snd (encode_uv (xy uv0)))
            | None => le_encode 2 0 ++ le_encode 2 0
            end = le_encode 2 wu ++ le_encode 2 wv /\
            match uv v with Some p => fst (encode_uv (xy p)) | None => 0%Z end = wu /\
            match uv v with Some p => snd (encode_uv (xy p)) | None => 0%Z end = wv /\
            (0 <= wu <= 65535)%Z /\ (0 <= wv <= 65535)%Z).
  { destruct (uv v) as [p|].
    - exists (fst (encode_uv (xy p))), (snd (encode_uv (xy p))).
      destruct (encode_uv_range (xy p)). auto.
    - exists 0%Z, 0%Z. repeat split; lia. }
  destruct Huv as (wu & wv & -> & -> & -> & Hwu & Hwv).
  rewrite ?app_nil_r, <- ?app_assoc.
  change [Byte.x00; Byte.x00] with ([Byte.x00] ++ [Byte.x00] ++ []).
  rewrite !unpack_cons by (rewrite ?pack_f_length, ?le_encode_length; reflexivity).
  cbn [unpack unpack_one].
  rewrite !Hword, !Hsword by assumption. reflexivity.
Qed.

Lemma vert_bytes_length (v : Vert) : length (vert_bytes pack_f v) = 24.
Proof.
  pose proof (unpack_vert_bytes v) as H. apply unpack_length in H. exact H.
Qed.

Lemma read_vertex_vert_bytes (v : Vert) (rest : list byte) :
  read_vertex (vert_bytes pack_f v ++ rest)
    = Ok ((stored_position pack_f v, stored_uv v, stored_normal v), rest).
Proof.
  unfold read_vertex, Reader.bind, readstruct.
  change (calcsize [ff; ff; ff; fH; fH; fh; fh; fh; fx; fx]) with 24.
  rewrite <- (vert_bytes_length v). rewrite take_app_length, drop_app_length.
  rewrite unpack_vert_bytes.
  unfold stored_position, stored_co, stored_uv, stored_normal, decode_uv.
  cbn [nth fst snd]. destruct (uv v); reflexivity.
Qed.

Lemma read_index_bytes (v : Vert) (rest : list byte) :
  fits_u16 v -> read_index 1 (index_bytes v ++ rest) = Ok (Z.of_nat (index v), rest).
Proof.
  intros H. unfold read_index. cbn [Z.eqb].
  apply readstruct1_bytes; [apply le_encode_length|].
  cbn [unpack_one]. f_equal. by apply index_bytes_decode.
Qed.

(** X15: when [save] ends normally, [load] accepts the file it has
    written, reads it to its last byte and returns one position, UV and
    normal per written vertex, in the order of the class list, and one face
    per written face, made of the indices the welding assigned.  The UVs and
    normals are the quantised ones; the positions are the bit patterns of the
    four bytes [struct] wrote for each coordinate. *)
Theorem load_reads_what_save_wrote cls mesh triangulate verts faces :
  welded bm_triangulate cls mesh triangulate = (verts, faces) ->
  snd (snd (save pack_f bm_triangulate cls mesh triangulate)) = Ok tt ->
  load (fst (snd (save pack_f bm_triangulate cls mesh triangulate))) =
    Ok ({| bob_pydata := {| pd_verts := map (stored_position pack_f) (_verts verts);
                            pd_edges := [];
                            pd_faces := map face_indices faces |};
           bob_uv_list := map stored_uv (_verts verts);
           bob_normal_list := map stored_normal (_verts verts) |}, []).
Proof.
  intros Hw Hok.
  destruct (save_Ok_inv pack_f bm_triangulate _ _ _ _ _ Hw Hok) as (Hnv & Hnf & Htri & Hfit).
  rewrite (save_Ok_file pack_f bm_triangulate _ _ _ _ _ Hw Hok).
  unfold fits_u32 in Hnv, Hnf.
  unfold bob_header. rewrite <- !app_assoc. unfold load.
  unfold Reader.bind at 1. rewrite readstruct1_I_encoded by (unfold BOB_FILE_ID; lia).
  unfold Reader.bind at 1. cbn [Z.eqb BOB_FILE_ID Pos.eqb Reader.assert Reader.ret].
  unfold Reader.bind at 1. rewrite readstruct1_I_encoded by lia.
  unfold Reader.bind at 1. cbn [Z.eqb Pos.eqb orb Reader.assert Reader.ret].
  unfold Reader.bind at 1. rewrite readstruct1_I_encoded by lia.
  unfold Reader.bind at 1. rewrite readstruct1_I_encoded by lia.
  rewrite Nat2Z.id.
  unfold Reader.bind at 1.
  rewrite (repeat_decode read_vertex (vert_bytes pack_f)
             (fun v => (stored_position pack_f v, stored_uv v, stored_normal v)))
    by (intros; apply read_vertex_vert_bytes).
  assert (Hlen : Z.to_nat (Z.of_nat (length faces) * 3) = length (concat faces)).
  { clear -Htri. induction Htri as [|face faces Hf _ IH]; [reflexivity|].
    cbn [length concat]. rewrite length_app, <- IH. red in Hf. lia. }
  rewrite Hlen. rewrite <- (app_nil_r (flat_map index_bytes (concat faces))).
  unfold Reader.bind at 1.
  rewrite (repeat_decode (read_index 1) index_bytes (fun v => Z.of_nat (index v))).
  - unfold Reader.ret. rewrite !Nat2Z.id. rewrite group_faces_triangles by exact Htri.
    rewrite !map_map. reflexivity.
  - intros v rest Hv. apply read_index_bytes.
    rewrite Forall_forall in Hfit. apply Hfit, list_elem_of_In, Hv.
Qed.

Lemma read_position_bytes (p : vec3) (rest : list byte) :
  read_position (vec3_bytes pack_f p ++ rest) = Ok (stored_co pack_f p, rest).
Proof.
  assert (U : unpack [ff; ff; ff] (vec3_bytes pack_f p)
              = Some [le_decode (pack_f (fst (fst (xyz p))));
                      le_decode (pack_f (snd (fst (xyz p))));
                      le_decode (pack_f (snd (xyz p)))]).
  { unfold vec3_bytes, components. destruct (xyz p) as [[x y] z]. cbn [flat_map fst snd].
    rewrite !unpack_cons by (rewrite ?pack_f_length; reflexivity). reflexivity. }
  unfold read_position, Reader.bind, readstruct.
  rewrite <- (unpack_length _ _ _ U). rewrite take_app_length, drop_app_length, U.
  reflexivity.
Qed.

Lemma tess_index_bytes_concat (tfs : list TessFace) :
  flat_map tess_index_bytes tfs
    = flat_map (fun vertid => le_encode 4 (Z.of_nat vertid)) (concat (map vertices tfs)).
Proof.
  induction tfs as [|t tfs IH]; [reflexivity|].
  cbn [flat_map map concat]. rewrite flat_map_app, IH. reflexivity.
Qed.

Lemma group_faces_tess (tfs : list TessFace) :
  Forall tess_triangle tfs ->
  group_faces (length tfs) (map Z.of_nat (concat (map vertices tfs))) = map tess_indices tfs.
Proof.
  induction 1 as [|t tfs Ht _ IH]; [reflexivity|].
  unfold tess_indices at 1. red in Ht. red in Ht.
  destruct (vertices t) as [|v0 [|v1 [|v2 [|v3 vs]]]] eqn:E; try discriminate Ht.
  cbn [length concat app map]. rewrite E. cbn [app map].
  rewrite group_faces_cons, IH. reflexivity.
Qed.

(** X16: a file that [savecob] has written completely is accepted by
    [loadcob], which returns one position per written vertex and one face per
    written face, made of the vertex ids of the tessellation face; the face
    normals that [savecob] wrote last are what [loadcob] leaves unread. *)
Theorem loadcob_reads_what_savecob_wrote mesh triangulate :
  let mesh' := triangulation_gate bm_triangulate mesh triangulate in
  Forall tess_triangle (tessfaces mesh') -> Forall tess_fits_u32 (tessfaces mesh') ->
  fits_u32 (length (mesh_vertices mesh')) -> fits_u32 (length (tessfaces mesh')) ->
  loadcob (fst (savecob pack_f bm_triangulate mesh triangulate)) =
    Ok ({| pd_verts := map (stored_co pack_f) (mesh_vertices mesh');
           pd_edges := [];
           pd_faces := map tess_indices (tessfaces mesh') |},
        flat_map (fun face => vec3_bytes pack_f (tf_normal face)) (tessfaces mesh')).
Proof.
  intros mesh' Htri Hfit Hnv Hnf.
  pose proof (savecob_ok pack_f bm_triangulate mesh triangulate) as Hs. cbv zeta in Hs.
  fold mesh' in Hs. rewrite Hs by assumption. clear Hs. cbn [fst].
  unfold fits_u32 in Hnv, Hnf.
  unfold cob_header. rewrite <- !app_assoc. unfold loadcob.
  unfold Reader.bind at 1. rewrite readstruct1_I_encoded by (unfold COB_FILE_ID; lia).
  unfold Reader.bind at 1. cbn [Z.eqb COB_FILE_ID Pos.eqb Reader.assert Reader.ret].
  unfold Reader.bind at 1. rewrite readstruct1_I_encoded by lia.
  unfold Reader.bind at 1. rewrite readstruct1_I_encoded by lia.
  rewrite !Nat2Z.id.
  unfold Reader.bind at 1.
  rewrite (repeat_decode read_position (vec3_bytes pack_f) (stored_co pack_f))
    by (intros; apply read_position_bytes).
  assert (Hlen : Z.to_nat (Z.of_nat (length (tessfaces mesh')) * 3)
                 = length (concat (map vertices (tessfaces mesh')))).
  { clear -Htri. induction Htri as [|t tfs Ht _ IH]; [reflexivity|].
    cbn [length concat map]. rewrite length_app, <- IH. red in Ht. red in Ht. lia. }
  rewrite Hlen, tess_index_bytes_concat.
  unfold Reader.bind at 1.
  rewrite (repeat_decode (readstruct1 fI) (fun vertid => le_encode 4 (Z.of_nat vertid)) Z.of_nat).
  - unfold Reader.ret. rewrite group_faces_tess by exact Htri. reflexivity.
  - intros vertid rest Hin. apply readstruct1_I_encoded.
    apply in_concat in Hin as (vs & Hvs & Hin). apply in_map_iff in Hvs as (t & <- & Ht).
    rewrite Forall_forall in Hfit. apply list_elem_of_In, Hfit in Ht.
    red in Ht. rewrite Forall_forall in Ht. apply list_elem_of_In, Ht in Hin.
    red in Hin. lia.
Qed.

End ReadBack.

Lemma pack_f32_length (q : Q) : length (pack_f32 q) = 4.
Proof. apply le_encode_length. Qed.

Lemma writestruct_then_readstruct_witness :
  exists bs,
    map byte_of_Z [7; 7]%Z ++ map byte_of_Z [0; 0; 128; 63; 255; 255; 254; 255; 0]%Z
      = map byte_of_Z [7; 7]%Z ++ bs /\
    length bs = 9 /\
    readstruct [ff; fH; fh; fx] (bs ++ [Byte.x2a]) = Ok ([1065353216; 65535; -2]%Z, [Byte.x2a]).
Proof.
  refine (writestruct_then_readstruct pack_f32 pack_f32_length [ff; fH; fh; fx]
            [PFloat 1; PInt 65535; PInt (-2)] (map byte_of_Z [7; 7]%Z) _ [Byte.x2a] _).
  vm_compute. reflexivity.
Defined.

Lemma load_reads_what_save_wrote_witness :
  load (file_of (bob Verts_initial square false)) =
    Ok ({| bob_pydata :=
             {| pd_verts := map (stored_position pack_f32)
                                (_verts (fst (weld Verts_initial square false)));
                pd_edges := [];
                pd_faces := map face_indices (snd (weld Verts_initial square false)) |};
           bob_uv_list := map stored_uv (_verts (fst (weld Verts_initial square false)));
           bob_normal_list :=
             map stored_normal (_verts (fst (weld Verts_initial square false))) |}, []).
Proof.
  refine (load_reads_what_save_wrote pack_f32 fan_triangulate pack_f32_length
            Verts_initial square false
            (fst (weld Verts_initial square false)) (snd (weld Verts_initial square false))
            _ _).
  - apply surjective_pairing.
  - vm_compute. reflexivity.
Defined.

Lemma loadcob_reads_what_savecob_wrote_witness :
  loadcob (fst (cob_with fan_triangulate quad false)) =
    Ok ({| pd_verts := map (stored_co pack_f32) (mesh_vertices quad);
           pd_edges := [];
           pd_faces := [(0, 1, 2); (0, 2, 3)]%Z |},
        flat_map (fun face => vec3_bytes pack_f32 (tf_normal face))
                 (tessfaces (fan_triangulate quad))).
Proof.
  refine (loadcob_reads_what_savecob_wrote pack_f32 fan_triangulate pack_f32_length
            quad false _ _ _ _).
  - repeat constructor.
  - repeat constructor; apply Z.ltb_lt; vm_compute; reflexivity.
  - apply Z.ltb_lt. vm_compute. reflexivity.
  - apply Z.ltb_lt. vm_compute. reflexivity.
Defined.

(** ** The texture name *)

Lemma lstrip_length (chars s : list byte) : length (lstrip chars s) <= length s.
Proof.
  induction s as [|b s IH]; [reflexivity|]. cbn [lstrip].
  destruct (in_chars chars b); simpl; lia.
Qed.

Lemma rstrip_snoc (chars pre : list byte) (b : byte) :
  rstrip chars (pre ++ [b]) = if in_chars chars b then rstrip chars pre else pre ++ [b].
Proof.
  unfold rstrip. rewrite rev_app_distr. cbn [rev app lstrip].
  destruct (in_chars chars b); [reflexivity|].
  change (b :: rev pre) with ([b] ++ rev pre). rewrite rev_app_distr, rev_involutive.
  reflexivity.
Qed.

Lemma rstrip_length (chars s : list byte) : length (rstrip chars s) <= length s.
Proof.
  unfold rstrip. rewrite length_rev. etrans; [apply lstrip_length|]. by rewrite length_rev.
Qed.

Lemma rstrip_dot_bob (stem : list byte) : rstrip dot_bob (stem ++ dot_bob) = rstrip dot_bob stem.
Proof.
  unfold dot_bob.
  change [Byte.x2e; Byte.x62; Byte.x6f; Byte.x62]
    with ([Byte.x2e] ++ [Byte.x62] ++ [Byte.x6f] ++ [Byte.x62]).
  rewrite !app_assoc. rewrite !rstrip_snoc. reflexivity.
Qed.

(** X17: the texture [load] looks for is named after the file, but the
    suffix is removed with [rstrip], which removes every trailing byte out of
    '.', 'b' and 'o' and not the four bytes ".bob" once.  For a file
    stem.bob the name is stem.dds when the stem ends in another byte, and a
    shorter name when the stem ends in '.', 'b' or 'o'. *)
Theorem texname_strips_a_character_set (stem : list byte) :
  texname (stem ++ dot_bob) = rstrip dot_bob stem ++ dot_dds /\
  (forall pre b, stem = pre ++ [b] -> in_chars dot_bob b = false ->
     texname (stem ++ dot_bob) = stem ++ dot_dds) /\
  (forall pre b, stem = pre ++ [b] -> in_chars dot_bob b = true ->
     texname (stem ++ dot_bob) = rstrip dot_bob pre ++ dot_dds /\
     length (texname (stem ++ dot_bob)) < length (stem ++ dot_dds)).
Proof.
  unfold texname. rewrite rstrip_dot_bob. split; [reflexivity|]. split.
  - intros pre b -> Hb. by rewrite rstrip_snoc, Hb.
  - intros pre b -> Hb. rewrite rstrip_snoc, Hb. split; [reflexivity|].
    rewrite !length_app. pose proof (rstrip_length dot_bob pre). simpl. lia.
Qed.

(** ** Similarity is not an equivalence *)

Lemma Qltb_compat (a a' b : Q) : (a == a')%Q -> Qltb a b = Qltb a' b.
Proof.
  intros E. destruct (Qltb a b) eqn:H1, (Qltb a' b) eqn:H2; try reflexivity.
  - apply Qltb_lt in H1. apply Qltb_ge in H2. rewrite E in H1. lra.
  - apply Qltb_ge in H1. apply Qltb_lt in H2. rewrite E in H1. lra.
Qed.

Lemma vec_similar_sym3 (a b : Q * Q * Q) : vec_similar a b = vec_similar b a.
Proof.
  unfold vec_similar. apply Qltb_compat.
  destruct a as [[a1 a2] a3], b as [[b1 b2] b3]. cbn. ring.
Qed.

Lemma vec_similar_sym2 (a b : Q * Q) : vec_similar a b = vec_similar b a.
Proof.
  unfold vec_similar. apply Qltb_compat.
  destruct a as [a1 a2], b as [b1 b2]. cbn. ring.
Qed.

(** X18: [simmilar] does not depend on which of the two vertices is asked,
    but it is not transitive: three vertices on a line, 0.006 apart, are
    similar to their neighbours while the outer two are not similar.  Which
    vertices get welded therefore depends on the order in which the corners
    are visited. *)
Theorem simmilar_symmetric_not_transitive :
  (forall a b : Vert, simmilar a b = simmilar b a) /\
  (exists a b c : Vert,
     simmilar a b = true /\ simmilar b c = true /\ simmilar a c = false).
Proof.
  split.
  - intros a b. unfold simmilar.
    rewrite (vec_similar_sym3 (coords a)), (vec_similar_sym3 (normal a)).
    destruct (uv a) as [u|], (uv b) as [u'|]; try reflexivity.
    by rewrite (vec_similar_sym2 u).
  - exists (@Build_Vert exact_host (0, 0, 0)%Q up None 0),
           (@Build_Vert exact_host (6 # 1000, 0, 0)%Q up None 1),
           (@Build_Vert exact_host (12 # 1000, 0, 0)%Q up None 2).
    repeat split; vm_compute; reflexivity.
Qed.

(** ** [load] and the bytes after the indices *)

Lemma framed_read_vertex : framed read_vertex.
Proof.
  unfold read_vertex. apply framed_bind; [apply framed_readstruct|].
  intros tup. apply framed_ret.
Qed.

Lemma framed_read_index (meshFormat : Z) : framed (read_index meshFormat).
Proof. unfold read_index. destruct (meshFormat =? 0)%Z; apply framed_readstruct1. Qed.

Lemma framed_load : framed load.
Proof.
  unfold load.
  repeat (first [ apply framed_read_vertex | apply framed_read_index
                | apply framed_readstruct1 | apply framed_assert
                | apply framed_repeat | apply framed_ret
                | apply framed_bind; [|intros ?] ]).
Qed.

Lemma advances_read_vertex : advances read_vertex 24.
Proof.
  intros file a rest H. unfold read_vertex in H.
  apply bind_Ok in H as (tup & f' & H & H'). injection H' as _ <-.
  by apply advances_readstruct in H.
Qed.

Lemma advances_read_index (meshFormat : Z) :
  advances (read_index meshFormat) (index_width meshFormat).
Proof.
  unfold read_index, index_width. destruct (meshFormat =? 0)%Z; apply advances_readstruct1.
Qed.

(** X19: when [load] returns a mesh it has used the sixteen header bytes,
    24 bytes per returned vertex and one byte (format 0) or two bytes
    (format 1) per index of a returned face, and nothing more: the same bytes
    followed by anything else give the same mesh. *)
Theorem load_uses_a_prefix (file : list byte) (mesh : BobMesh) (rest : list byte) :
  load file = Ok (mesh, rest) ->
  exists used,
    file = used ++ rest /\
    length used = 16 + 24 * length (pd_verts (bob_pydata mesh))
                  + index_width (header_field 1 file) * (3 * length (pd_faces (bob_pydata mesh))) /\
    length (bob_uv_list mesh) = length (pd_verts (bob_pydata mesh)) /\
    length (bob_normal_list mesh) = length (pd_verts (bob_pydata mesh)) /\
    pd_edges (bob_pydata mesh) = [] /\
    forall rest', load (used ++ rest') = Ok (mesh, rest').
Proof.
  intros H. pose proof (framed_load _ _ _ H) as (used & Hfile & Hframe).
  exists used. split; [exact Hfile|].
  unfold load in H.
  apply bind_Ok in H as (magic & f1 & H1 & H).
  apply bind_Ok in H as ([] & f2 & H2 & H).
  apply bind_Ok in H as (meshFormat & f3 & H3 & H).
  apply bind_Ok in H as ([] & f4 & H4 & H).
  apply bind_Ok in H as (vertexCount & f5 & H5 & H).
  apply bind_Ok in H as (faceCount & f6 & H6 & H).
  apply bind_Ok in H as (vs & f7 & H7 & H).
  apply bind_Ok in H as (indices & f8 & H8 & H).
  injection H as <- <-. cbn [bob_pydata pd_verts pd_faces pd_edges bob_uv_list bob_normal_list].
  rewrite !length_map, group_faces_length.
  split; [|repeat split; exact Hframe].
  apply assert_Ok in H2 as [_ ->]. apply assert_Ok in H4 as [_ ->].
  pose proof (readstruct1_I_nonneg _ _ _ H6) as Hfc.
  pose proof (readstruct1_I_Ok _ _ _ H1) as (_ & _ & Hf1).
  pose proof (readstruct1_I_Ok _ _ _ H3) as (_ & Hfmt & _).
  assert (Hhf : header_field 1 file = meshFormat).
  { unfold header_field. change (4 * 1) with 4. by rewrite Hfmt, Hf1. }
  rewrite Hhf.
  apply advances_readstruct1 in H1, H3, H5, H6.
  apply (advances_repeat _ 24) in H7 as [H7 H7']; [|apply advances_read_vertex].
  apply (advances_repeat _ (index_width meshFormat)) in H8 as [H8 _];
    [|apply advances_read_index].
  rewrite H7'. rewrite Hfile, length_app in H1. simpl in H1, H3, H5, H6.
  rewrite Z2Nat.inj_mul in H8 by lia. change (Z.to_nat 3) with 3 in H8. nia.
Qed.

Lemma load_uses_a_prefix_witness :
  exists used,
    bob_one_vertex_file ++ [Byte.x2a] = used ++ [Byte.x2a] /\
    length used = 16 + 24 * 1 + index_width (header_field 1 (bob_one_vertex_file ++ [Byte.x2a])) * (3 * 0) /\
    1 = 1 /\ 1 = 1 /\ @nil (Z * Z) = [] /\
    forall rest',
      load (used ++ rest')
        = Ok ({| bob_pydata := {| pd_verts := [(0, 0, 0)%Z]; pd_edges := []; pd_faces := [] |};
                 bob_uv_list := [(65535 # 65535, 0 # 65535)];
                 bob_normal_list := [(-32768 # 32767, 32767 # 32767, 0 # 32767)] |}, rest').
Proof.
  refine (load_uses_a_prefix (bob_one_vertex_file ++ [Byte.x2a])
            {| bob_pydata := {| pd_verts := [(0, 0, 0)%Z]; pd_edges := []; pd_faces := [] |};
               bob_uv_list := [(65535 # 65535, 0 # 65535)];
               bob_normal_list := [(-32768 # 32767, 32767 # 32767, 0 # 32767)] |}
            [Byte.x2a] _).
  vm_compute. reflexivity.
Defined.

(** ** Where the assertion of the exporters can fail *)

Section Outcomes.

Context {host : Host} {parts : Components}.

Variable pack_f : Q -> list byte.
Variable bm_triangulate : Mesh -> Mesh.

Lemma Forall_or_Exists_not_length {A} (faces : list (list A)) :
  Forall (fun face => length face = 3) faces \/ Exists (fun face => length face <> 3) faces.
Proof.
  induction faces as [|face faces [IH|IH]].
  - left. constructor.
  - destruct (Nat.eq_dec (length face) 3) as [E|E].
    + left. by constructor.
    + right. by constructor.
  - right. by constructor 2.
Qed.

(** X20: [save] can raise its assertion error only if a polygon of the mesh
    that reaches the welding loop is not a triangle.  [savecob] can raise it
    only if it has called the host's triangulation and that has returned a
    tessellation face that is not a triangle: a mesh that [savecob] does not
    triangulate consists of triangles. *)
Theorem assertion_failures_come_from_faces cls mesh triangulate :
  let mesh' := triangulation_gate bm_triangulate mesh triangulate in
  (snd (snd (save pack_f bm_triangulate cls mesh triangulate)) = Err MalformedMesh ->
     Exists (fun face => ~ is_triangle face) (bm_faces mesh')) /\
  (snd (savecob pack_f bm_triangulate mesh triangulate) = Err MalformedMesh ->
     triangulate || needs_triangulation mesh = true /\
     Exists (fun face => ~ tess_triangle face) (tessfaces (bm_triangulate mesh))).
Proof.
  intros mesh'. split.
  - intros H. destruct (Forall_or_Exists_not_length (bm_faces mesh')) as [Htri|Hex];
      [exfalso|exact Hex].
    unfold save in H. fold mesh' in H.
    destruct (faces_loop cls _ (bm_faces mesh')) as [verts faces] eqn:Hw. cbn [snd] in H.
    assert (Hfaces : Forall is_triangle faces).
    { apply faces_loop_concat in Hw as [_ HF]. clear -HF Htri.
      induction HF as [|f b faces bfaces Hfb _ IH]; [constructor|].
      apply Forall_cons in Htri as [Hb Htri]. constructor; [|by apply IH].
      unfold is_triangle. lia. }
    match type of H with
    | snd (?m ?file) = _ => assert (Hm : struct_errors_only m)
    end.
    { repeat (apply seo_bind; [|intros _]); try apply seo_writestruct.
      - apply seo_for_each. intros v _. apply seo_write_vert.
      - apply seo_for_each. intros face Hin. apply seo_write_face.
        rewrite Forall_forall in Hfaces. apply Hfaces, list_elem_of_In, Hin. }
    apply Hm in H. discriminate H.
  - intros H.
    assert (Hex : Exists (fun face => ~ tess_triangle face) (tessfaces mesh')).
    { destruct (Forall_or_Exists_not_length (map vertices (tessfaces mesh'))) as [Htri|Hex].
      - exfalso. unfold savecob in H. fold mesh' in H.
        match type of H with
        | snd (?m ?file) = _ => assert (Hm : struct_errors_only m)
        end.
        { repeat (apply seo_bind; [|intros _]); try apply seo_writestruct.
          - apply seo_for_each. intros v _. apply seo_writestruct.
          - apply seo_for_each. intros face Hin. apply seo_write_tessface.
            rewrite Forall_map, Forall_forall in Htri. apply Htri, list_elem_of_In, Hin.
          - apply seo_for_each. intros v _. apply seo_writestruct. }
        apply Hm in H. discriminate H.
      - apply Exists_exists in Hex as (vs & Hin & Hvs).
        apply list_elem_of_In, in_map_iff in Hin as (face & <- & Hin).
        apply Exists_exists. exists face. split; [by apply list_elem_of_In|exact Hvs]. }
    subst mesh'. unfold triangulation_gate in *.
    destruct (triangulate || needs_triangulation mesh) eqn:Eg; [by split|].
    exfalso. apply orb_false_elim in Eg as [_ Eg]. unfold needs_triangulation in Eg.
    apply Exists_exists in Hex as (face & Hin & Hface).
    assert (Hb : negb (length (vertices face) =? 3) = false).
    { destruct (negb _) eqn:Eb; [|reflexivity].
      assert (existsb (fun face => negb (length (vertices face) =? 3)) (tessfaces mesh) = true)
        by (apply existsb_exists; exists face; split; [by apply list_elem_of_In|exact Eb]).
      congruence. }
    apply negb_false_iff, Nat.eqb_eq in Hb. by apply Hface.
Qed.

End Outcomes.

(** ** What one export hands to the next *)


Section Sessions.

Context {host : Host} {parts : Components}.

Variable pack_f : Q -> list byte.
Variable bm_triangulate : Mesh -> Mesh.

Hypothesis pack_f_length : forall q, length (pack_f q) = 4.

(** X22: every face [save] writes refers to vertex records of the same
    file: its three indices lie between 0 and the written vertex count
    minus one. *)
Theorem written_faces_index_written_vertices cls mesh triangulate verts faces :
  Verts_wf cls ->
  welded bm_triangulate cls mesh triangulate = (verts, faces) ->
  Forall is_triangle faces ->
  Forall (face_within 0 (Z.of_nat (length (_verts verts)) - 1)) (map face_indices faces).
Proof.
  intros Hwf Hw Htri.
  pose proof (welded_indices bm_triangulate _ _ _ _ _ Hwf Hw) as Hidx.
  apply Forall_map. clear Hw. revert Hidx.
  induction Htri as [|face faces Hf _ IH]; intros Hidx; [constructor|].
  cbn [concat] in Hidx. apply Forall_app in Hidx as [Hface Hrest].
  constructor; [|apply IH; exact Hrest].
  destruct face as [|v0 [|v1 [|v2 [|v3 face]]]]; try discriminate Hf.
  inversion Hface as [|? ? H0 Hface1]; subst. inversion Hface1 as [|? ? H1 Hface2]; subst.
  inversion Hface2 as [|? ? H2 _]; subst.
  unfold face_within, face_indices, within. cbn [map nth fst snd]. lia.
Qed.


End Sessions.

Lemma written_faces_index_written_vertices_witness :
  Forall (face_within 0 (Z.of_nat (length (_verts (fst (weld after_a triangle_b false)))) - 1))
         (map face_indices (snd (weld after_a triangle_b false))).
Proof.
  refine (written_faces_index_written_vertices fan_triangulate after_a triangle_b false
            (fst (weld after_a triangle_b false)) (snd (weld after_a triangle_b false)) _ _ _).
  - unfold after_a, bob. rewrite save_state.
    eapply welded_wf; [apply Verts_initial_wf|apply surjective_pairing].
  - apply surjective_pairing.
  - repeat constructor.
Defined.


(** ** Vertices without UV *)

Section WithoutUV.

Context {host : Host} {parts : Components}.

Variable pack_f : Q -> list byte.
Hypothesis pack_f_length : forall q, length (pack_f q) = 4.

(** X24: a vertex that has no UV is written with the two UV words 0 and 0,
    and the importer, which replaces V by 1 - V, gives it the UV (0, 1). *)
Theorem uvless_vertex_comes_back_with_v_one (v : Vert) :
  uv v = None ->
  take 4 (drop 12 (vert_bytes pack_f v)) = [Byte.x00; Byte.x00; Byte.x00; Byte.x00] /\
  (fst (import_uv (stored_uv v)) == 0)%Q /\
  (snd (import_uv (stored_uv v)) == 1)%Q.
Proof.
  intros Hu. split.
  - unfold vert_bytes, vec3_bytes. rewrite Hu.
    unfold components. destruct (xyz (coords v)) as [[x y] z]. cbn [flat_map fst snd].
    rewrite app_nil_r, <- !app_assoc.
    change 12 with (4 + (4 + 4)). rewrite <- !drop_drop.
    rewrite !drop_app_length' by (symmetry; apply pack_f_length).
    reflexivity.
  - unfold stored_uv, import_uv, decode_uv. rewrite Hu. cbn [fst snd].
    split; reflexivity.
Qed.

End WithoutUV.

Lemma uvless_vertex_comes_back_with_v_one_witness :
  take 4 (drop 12 (vert_bytes pack_f32 uvless))
    = [Byte.x00; Byte.x00; Byte.x00; Byte.x00] /\
  (fst (import_uv (stored_uv uvless)) == 0)%Q /\
  (snd (import_uv (stored_uv uvless)) == 1)%Q.
Proof.
  refine (uvless_vertex_comes_back_with_v_one pack_f32 pack_f32_length uvless _).
  reflexivity.
Defined.

(** ** Registration *)

Lemma occurrences_app f m1 m2 : occurrences f (m1 ++ m2) = occurrences f m1 + occurrences f m2.
Proof. unfold occurrences. by rewrite List.filter_app, length_app. Qed.

Lemma occurrences_remove_other f g menu :
  f <> g -> occurrences f (menu_remove g menu) = occurrences f menu.
Proof.
  intros Hne. induction menu as [|h menu IH]; [reflexivity|].
  cbn [menu_remove]. destruct (decide (h = g)) as [->|Hh].
  - unfold occurrences. cbn [List.filter]. rewrite bool_decide_eq_false_2 by congruence.
    reflexivity.
  - unfold occurrences in *. cbn [List.filter]. destruct (bool_decide (h = f)); simpl; lia.
Qed.

Lemma occurrences_remove_same f menu :
  occurrences f (menu_remove f menu) = pred (occurrences f menu).
Proof.
  induction menu as [|h menu IH]; [reflexivity|].
  cbn [menu_remove]. destruct (decide (h = f)) as [->|Hh].
  - unfold occurrences. cbn [List.filter]. rewrite bool_decide_eq_true_2 by reflexivity.
    reflexivity.
  - unfold occurrences in *. cbn [List.filter].
    rewrite bool_decide_eq_false_2 by exact Hh. exact IH.
Qed.

Lemma menu_remove_absent f menu : occurrences f menu = 0 -> menu_remove f menu = menu.
Proof.
  induction menu as [|h menu IH]; [reflexivity|].
  unfold occurrences. cbn [List.filter menu_remove].
  destruct (decide (h = f)) as [->|Hh].
  - rewrite bool_decide_eq_true_2 by reflexivity. discriminate.
  - rewrite bool_decide_eq_false_2 by exact Hh. intros H. f_equal. by apply IH.
Qed.

Lemma menu_remove_app_absent f m1 m2 :
  occurrences f m1 = 0 -> menu_remove f (m1 ++ m2) = m1 ++ menu_remove f m2.
Proof.
  induction m1 as [|h m1 IH]; [reflexivity|].
  unfold occurrences. cbn [List.filter menu_remove app].
  destruct (decide (h = f)) as [->|Hh].
  - rewrite bool_decide_eq_true_2 by reflexivity. discriminate.
  - rewrite bool_decide_eq_false_2 by exact Hh. intros H. f_equal. by apply IH.
Qed.

(** X25: [unregister] does not undo [register]: the four mesh entries occur
    in the two menus as often as before, but the entry for the level
    definitions, which [register] appends and [unregister] never removes,
    occurs once more in the import menu after every such cycle.  Starting
    from menus without the five entries, the export menu is restored and the
    import menu ends with the level definitions entry. *)
Theorem unregister_leaves_leveldefs_entry (m : Menus) :
  let m' := unregister (register m) in
  (forall f, f <> import_leveldefs ->
     occurrences f (INFO_MT_file_import m') = occurrences f (INFO_MT_file_import m) /\
     occurrences f (INFO_MT_file_export m') = occurrences f (INFO_MT_file_export m)) /\
  occurrences import_leveldefs (INFO_MT_file_import m')
    = S (occurrences import_leveldefs (INFO_MT_file_import m)) /\
  occurrences import_leveldefs (INFO_MT_file_export m')
    = occurrences import_leveldefs (INFO_MT_file_export m) /\
  (occurrences import_bob_menu (INFO_MT_file_import m) = 0 ->
   occurrences import_cob_menu (INFO_MT_file_import m) = 0 ->
   INFO_MT_file_import m' = INFO_MT_file_import m ++ [import_leveldefs]) /\
  (occurrences export_bob_menu (INFO_MT_file_export m) = 0 ->
   occurrences export_cob_menu (INFO_MT_file_export m) = 0 ->
   INFO_MT_file_export m' = INFO_MT_file_export m).
Proof.
  intros m'. subst m'. unfold unregister, register, menu_append.
  cbn [INFO_MT_file_import INFO_MT_file_export].
  set (imp := INFO_MT_file_import m). set (exp := INFO_MT_file_export m).
  assert (Hocc : forall f g h menu (tail : list draw_func),
            g <> h ->
            occurrences f (menu_remove h (menu_remove g ((menu ++ [g]) ++ [h] ++ tail)))
            = occurrences f (menu ++ tail)).
  { intros f g h menu tail Hgh.
    destruct (decide (f = h)) as [->|Hfh].
    - rewrite occurrences_remove_same, occurrences_remove_other by congruence.
      rewrite !occurrences_app.
      assert (E1 : occurrences h [g] = 0)
        by (unfold occurrences; cbn [List.filter]; by rewrite bool_decide_eq_false_2).
      assert (E2 : occurrences h [h] = 1)
        by (unfold occurrences; cbn [List.filter]; by rewrite bool_decide_eq_true_2).
      rewrite E1, E2. lia.
    - rewrite occurrences_remove_other by exact Hfh.
      destruct (decide (f = g)) as [->|Hfg].
      + rewrite occurrences_remove_same. rewrite !occurrences_app.
        assert (E1 : occurrences g [g] = 1)
          by (unfold occurrences; cbn [List.filter]; by rewrite bool_decide_eq_true_2).
        assert (E2 : occurrences g [h] = 0)
          by (unfold occurrences; cbn [List.filter]; by rewrite bool_decide_eq_false_2).
        rewrite E1, E2. lia.
      + rewrite occurrences_remove_other by exact Hfg. rewrite !occurrences_app.
        assert (E1 : occurrences f [g] = 0)
          by (unfold occurrences; cbn [List.filter]; by rewrite bool_decide_eq_false_2).
        assert (E2 : occurrences f [h] = 0)
          by (unfold occurrences; cbn [List.filter]; by rewrite bool_decide_eq_false_2).
        rewrite E1, E2. lia. }
  assert (Himp : forall f,
            occurrences f (menu_remove import_cob_menu (menu_remove import_bob_menu
               (((imp ++ [import_bob_menu]) ++ [import_cob_menu]) ++ [import_leveldefs])))
            = occurrences f (imp ++ [import_leveldefs])).
  { intros f. rewrite <- (app_assoc _ [import_cob_menu]). by apply Hocc. }
  assert (Hexp : forall f,
            occurrences f (menu_remove export_cob_menu (menu_remove export_bob_menu
               ((exp ++ [export_bob_menu]) ++ [export_cob_menu])))
            = occurrences f exp).
  { intros f. rewrite <- (app_nil_r exp) at 2. rewrite <- (Hocc f export_bob_menu export_cob_menu exp [])
      by discriminate. reflexivity. }
  split; [|split; [|split; [|split]]].
  - intros f Hf. rewrite Himp, Hexp, occurrences_app.
    assert (E : occurrences f [import_leveldefs] = 0)
      by (unfold occurrences; cbn [List.filter]; by rewrite bool_decide_eq_false_2).
    rewrite E. lia.
  - rewrite Himp, occurrences_app.
    assert (E : occurrences import_leveldefs [import_leveldefs] = 1) by reflexivity.
    rewrite E. lia.
  - apply Hexp.
  - intros H1 H2. rewrite <- !app_assoc.
    rewrite (menu_remove_app_absent import_bob_menu imp) by exact H1.
    cbn [app menu_remove]. rewrite decide_True by reflexivity.
    rewrite (menu_remove_app_absent import_cob_menu imp) by exact H2.
    cbn [menu_remove]. rewrite decide_True by reflexivity. reflexivity.
  - intros H1 H2. rewrite <- !app_assoc.
    rewrite (menu_remove_app_absent export_bob_menu exp) by exact H1.
    cbn [app menu_remove]. rewrite decide_True by reflexivity.
    rewrite (menu_remove_app_absent export_cob_menu exp) by exact H2.
    cbn [menu_remove]. rewrite decide_True by reflexivity. by rewrite app_nil_r.
Qed.
